(** * needletail bench: the readfq benchmark driver and its record reader

    [bench/benchmark.c] opens a FASTA/FASTQ file, pulls records from a
    kseq reader until the reader returns a negative value, adds up the
    sequence lengths in an [unsigned long] and prints the total.

    The driver is embedded from the C source.  The reader it calls
    ([kseq_read], which the [KSEQ_INIT] macro of [readfq/kseq.h] generates)
    is not among the sources: the driver is stated over an arbitrary
    reader, and the streaming record reader that the specification
    describes is modelled in [Reader] and plugged in as one instance. *)

From Stdlib Require Import Ascii String DecimalString.
From Stdlib Require Import ZArith NArith Arith Bool Lia.
From Stdlib Require Import List.
From Stdlib Require DecimalN DecimalPos Permutation.
Import Datatypes ListNotations.

Local Open Scope list_scope.

(** ** Bytes and lines *)

Definition bytes := list ascii.

Definition LF : ascii := ascii_of_nat 10.

Definition bytes_of (s : string) : bytes := list_ascii_of_string s.

(** A text whose lines are the given strings, each closed by a newline. *)
Definition text_of (ls : list string) : bytes :=
  flat_map (fun l => bytes_of l ++ [LF]) ls.

Definition is_newline (c : ascii) : bool := Ascii.eqb c LF.

(** Whitespace as C's [isspace]: space, and the controls 9 to 13. *)
Definition is_space (c : ascii) : bool :=
  let n := nat_of_ascii c in
  (n =? 32) || ((9 <=? n) && (n <=? 13)).

Definition is_blank (l : bytes) : bool := forallb is_space l.

Definition no_newline (l : bytes) : bool := forallb (fun c => negb (is_newline c)) l.

(** The first byte of a line, if any, satisfies [p]. *)
Definition begins_with (p : ascii -> bool) (l : bytes) : bool :=
  match l with
  | [] => false
  | c :: _ => p c
  end.

Definition is_fasta_sigil (c : ascii) : bool := Ascii.eqb c ">".
Definition is_fastq_sigil (c : ascii) : bool := Ascii.eqb c "@".
Definition is_header_sigil (c : ascii) : bool := is_fasta_sigil c || is_fastq_sigil c.
Definition is_separator (c : ascii) : bool := Ascii.eqb c "+".

(** A line of the byte-source: its bytes without the newline, and whether a
    newline closed it (only the last line of a source can lack one). *)
Record line := Line { text : bytes; terminated : bool }.

Fixpoint split_lines (s : bytes) : list line :=
  match s with
  | [] => []
  | c :: s' =>
      if is_newline c then Line [] true :: split_lines s'
      else match split_lines s' with
           | [] => [Line [c] false]
           | l :: ls => Line (c :: text l) (terminated l) :: ls
           end
  end.

(** The bytes of a source that are not newlines. *)
Definition payload (s : bytes) : bytes := filter (fun c => negb (is_newline c)) s.

(** ** The streaming record reader *)

Module Reader.

(** Modelled from the spec: the record type of the reader, whose code
    ([readfq/kseq.h]) is not among the sources; the parsed unit of section
    3, with its four byte-sequence fields. *)
Record record := mkRecord {
  name : bytes;
  comment : bytes;
  sequence : bytes;
  quality : bytes
}.

(** Modelled from the spec: the kinds of structural violation listed in
    section 7 (missing header sigil, end of input inside the header line,
    truncated record) and the violation of the length invariant of
    section 3 by a FASTQ record that is closed by the next header. *)
Inductive FormatErrorKind :=
| MissingHeaderSigil
| EofInHeader
| TruncatedRecord
| LengthMismatch.

(** Modelled from the spec: the three outcomes of [next_record]; a format
    error carries the index of the line at which it was detected. *)
Inductive result :=
| Rec (r : record)
| EndOfStream
| FormatError (offset : nat) (kind : FormatErrorKind).

(** Modelled from the spec: the reader's buffer, cursor and one-line
    pushback slot, seen as the lines not consumed yet, with the count of
    the lines consumed so far.  Between two calls the reader is in state
    [BeforeRecord]; the other states are passed through inside a call,
    one function per state below. *)
Record reader := mkReader {
  lineno : nat;
  pending : list line
}.

(** Modelled from the spec: construction over a byte-source; nothing is
    parsed. *)
Definition open (src : bytes) : reader := mkReader 0 (split_lines src).

(** Modelled from the spec: the parts of a header line; [name] is the
    token up to the first whitespace, [comment] the rest of the line after
    that whitespace run. *)
Fixpoint token (h : bytes) : bytes :=
  match h with
  | [] => []
  | c :: h' => if is_space c then [] else c :: token h'
  end.

(** Modelled from the spec: the header line from the first whitespace
    on. *)
Fixpoint after_token (h : bytes) : bytes :=
  match h with
  | [] => []
  | c :: h' => if is_space c then h else after_token h'
  end.

(** Modelled from the spec: a line without its leading whitespace run. *)
Fixpoint skip_spaces (h : bytes) : bytes :=
  match h with
  | [] => []
  | c :: h' => if is_space c then skip_spaces h' else h
  end.

(** Modelled from the spec: the record after its header line [h], nothing
    read of the sequence yet. *)
Definition header_record (h : bytes) : record :=
  mkRecord (token h) (skip_spaces (after_token h)) [] [].

(** Modelled from the spec: a sequence line, and a run of quality bytes,
    appended to the record being read. *)
Definition add_sequence (r : record) (l : bytes) : record :=
  mkRecord (name r) (comment r) (sequence r ++ l) (quality r).

Definition add_quality (r : record) (l : bytes) : record :=
  mkRecord (name r) (comment r) (sequence r) (quality r ++ l).

(** Modelled from the spec: state [InQuality] (step 3 of section 4.1).
    Quality bytes are collected, across lines and without their newlines,
    until there are as many as sequence bytes; the record is then complete
    wherever the line stands, and what is left of that line stays in the
    source.  End of input before that is a truncated record. *)
Fixpoint in_quality (r : record) (n : nat) (ls : list line) : result * reader :=
  let need := length (sequence r) - length (quality r) in
  if need =? 0 then (Rec r, mkReader n ls)
  else
    match ls with
    | [] => (FormatError n TruncatedRecord, mkReader n [])
    | l :: ls' =>
        if length (text l) <=? need
        then in_quality (add_quality r (text l)) (S n) ls'
        else (Rec (add_quality r (firstn need (text l))),
              mkReader n (Line (skipn need (text l)) (terminated l) :: ls'))
    end.

(** Modelled from the spec: a record that ends in state [InSequence] is
    complete; for a FASTQ record the invariant of section 3 is then checked
    ([len(quality) == len(sequence)], violation is a format error), at end
    of input as a truncated record (section 7). *)
Definition complete (fastq at_eof : bool) (r : record) (rd : reader) : result * reader :=
  if fastq && negb (length (quality r) =? length (sequence r))
  then (FormatError (lineno rd) (if at_eof then TruncatedRecord else LengthMismatch), rd)
  else (Rec r, rd).

(** Modelled from the spec: state [InSequence] (steps 2, 4 and 5 of section
    4.1).  Lines are appended to [sequence] until a line begins with a
    header sigil (left in the source for the next call), or, in a FASTQ
    record, with the separator [+] (whose content is discarded), or the
    input ends.  Every other line contributes its bytes, an empty line
    none. *)
Fixpoint in_sequence (fastq : bool) (r : record) (n : nat) (ls : list line)
  : result * reader :=
  match ls with
  | [] => complete fastq true r (mkReader n [])
  | l :: ls' =>
      if begins_with is_header_sigil (text l) then complete fastq false r (mkReader n ls)
      else if fastq && begins_with is_separator (text l) then in_quality r (S n) ls'
      else in_sequence fastq (add_sequence r (text l)) (S n) ls'
  end.

(** Modelled from the spec: state [InHeader] (step 1 of section 4.1).  The
    line must begin with [>] or [@]; a header line that the input ends in,
    without its newline, is the "EOF mid-header" violation of section 7.
    The header is consumed as a whole and the reader goes on in
    [InSequence]. *)
Definition in_header (l : line) (n : nat) (ls : list line) : result * reader :=
  match text l with
  | [] => (FormatError n MissingHeaderSigil, mkReader n (l :: ls))
  | c :: h =>
      if is_header_sigil c then
        if terminated l
        then in_sequence (is_fastq_sigil c) (header_record h) (S n) ls
        else (FormatError n EofInHeader, mkReader n (l :: ls))
      else (FormatError n MissingHeaderSigil, mkReader n (l :: ls))
  end.

(** Modelled from the spec: state [BeforeRecord] (step 1 of section 4.1).
    Blank lines are skipped; no line left is the end of the stream. *)
Fixpoint before_record (n : nat) (ls : list line) : result * reader :=
  match ls with
  | [] => (EndOfStream, mkReader n [])
  | l :: ls' =>
      if is_blank (text l) then before_record (S n) ls'
      else in_header l n ls'
  end.

(** Modelled from the spec: the operation
    [next_record() -> Record | EndOfStream | FormatError] of the reader,
    whose code is not among the sources; every call starts in state
    [BeforeRecord]. *)
Definition next_record (rd : reader) : result * reader :=
  before_record (lineno rd) (pending rd).

(** The line that the next call takes as a header: the first one that is
    not blank. *)
Fixpoint next_line (ls : list line) : option line :=
  match ls with
  | [] => None
  | l :: ls' => if is_blank (text l) then next_line ls' else Some l
  end.

(** The record that the next call reads is a FASTQ record: its header
    begins with [@]. *)
Definition next_is_fastq (rd : reader) : bool :=
  match next_line (pending rd) with
  | Some l => begins_with is_fastq_sigil (text l)
  | None => false
  end.

(** The outcome is a record. *)
Definition is_rec (res : result) : bool :=
  match res with
  | Rec _ => true
  | _ => false
  end.

(** The caller's view of a reader: [yields rd rs res] when successive calls
    from [rd] return the records [rs], in this order, and the next call
    returns [res], which is not a record. *)
Inductive yields : reader -> list record -> result -> Prop :=
| yields_last rd res rd' :
    next_record rd = (res, rd') -> is_rec res = false ->
    yields rd [] res
| yields_next rd r rd' rs res :
    next_record rd = (Rec r, rd') -> yields rd' rs res ->
    yields rd (r :: rs) res.

(** *** Sources laid out record by record *)

(** Lines, each closed by a newline. *)
Definition lines_text (ls : list bytes) : bytes :=
  flat_map (fun l => l ++ [LF]) ls.

(** A line of a FASTA sequence block: no newline inside, and not the
    beginning of a header. *)
Definition seq_line (l : bytes) : bool :=
  no_newline l && negb (begins_with is_header_sigil l).

(** A line of a FASTQ sequence block: moreover not a separator. *)
Definition fastq_seq_line (l : bytes) : bool :=
  seq_line l && negb (begins_with is_separator l).

(** A FASTA record: the header [>h] and the sequence lines [ls]. *)
Definition fasta_source (h : bytes) (ls : list bytes) : bytes :=
  (">"%char :: h) ++ LF :: lines_text ls.

(** A FASTQ record up to the end of the source: the header [@h], the
    sequence lines [ls], the separator line [+sep], and the bytes [q] that
    follow it. *)
Definition fastq_source (h : bytes) (ls : list bytes) (sep q : bytes) : bytes :=
  ("@"%char :: h) ++ LF :: lines_text ls ++ ("+"%char :: sep) ++ LF :: q.

(** A FASTA file: records laid out one after the other. *)
Definition fasta_file (recs : list (bytes * list bytes)) : bytes :=
  flat_map (fun hl => fasta_source (fst hl) (snd hl)) recs.

(** The lines of such a file. *)
Definition fasta_lines (recs : list (bytes * list bytes)) : list line :=
  flat_map (fun hl => Line (">"%char :: fst hl) true
                      :: map (fun l => Line l true) (snd hl)) recs.

(** The record that a well-formed layout stands for. *)
Definition laid_out (hl : bytes * list bytes) : record :=
  mkRecord (token (fst hl)) (skip_spaces (after_token (fst hl))) (concat (snd hl)) [].

(** A layout is well formed when its header has no newline and its lines
    are sequence lines. *)
Definition well_laid (hl : bytes * list bytes) : bool :=
  no_newline (fst hl) && forallb seq_line (snd hl).

(** A record named "r" with [n] bases "A" on one line, and the file of [k]
    such records. *)
Definition uniform_layout (n : nat) : bytes * list bytes :=
  (bytes_of "r", [repeat "A"%char n]).

Definition uniform_file (n k : nat) : bytes :=
  fasta_file (repeat (uniform_layout n) k).

Definition uniform_records (n k : nat) : list record :=
  map laid_out (repeat (uniform_layout n) k).

End Reader.

(** ** The benchmark driver, [bench/benchmark.c] *)

Module Bench.

(** What a run of the program leaves behind: the bytes written to standard
    output and to standard error, and the exit status. *)
Record process := mkProcess {
  stdout : string;
  stderr : string;
  exit_status : Z
}.

Definition newline : string := String LF EmptyString.

(** [printf("%lu", v)]: the decimal digits of an unsigned value. *)
Definition print_lu (v : Z) : string :=
  NilZero.string_of_uint (N.to_uint (Z.to_N v)).

(** Arithmetic of [unsigned long], [w] bits wide. *)
Definition ulong_wrap (w : N) (v : Z) : Z := v mod 2 ^ Z.of_N w.

(** [fopen] either yields a stream or fails; on failure [perror] finds the
    text of [errno]. *)
Inductive fopen_result (FILE : Type) :=
| Opened (fp : FILE)
| Null (errno_text : string).
Arguments Opened {FILE} fp.
Arguments Null {FILE} errno_text.

Section Driver.

(** Width of [unsigned long] on the platform. *)
Variable ulong_bits : N.

(** The C library and the kseq reader, as [main] uses them:
    [kseq_init] stands for [kseq_init(fileno(fp))], [kseq_read] returns
    its [int] result with the updated reader, and [seq_l] is the field
    [seq->seq.l]. *)
Context {FILE kseq_t : Type}.
Variable fopen : string -> fopen_result FILE.
Variable kseq_init : FILE -> kseq_t.
Variable kseq_read : kseq_t -> Z * kseq_t.
Variable seq_l : kseq_t -> Z.

(** [while (kseq_read(seq) >= 0) { slen += seq->seq.l; }] *)
Fixpoint read_loop (fuel : nat) (seq : kseq_t) (slen : Z) : option (Z * kseq_t) :=
  match fuel with
  | O => None
  | S fuel' =>
      let (r, seq') := kseq_read seq in
      if 0 <=? r
      then read_loop fuel' seq' (ulong_wrap ulong_bits (slen + seq_l seq'))
      else Some (slen, seq')
  end%Z.

(** [main], given [argv[1]]. *)
Definition main (fuel : nat) (path : string) : option process :=
  match fopen path with
  | Null errno_text =>
      (* perror("fopen"); exit(1); *)
      Some (mkProcess "" ("fopen: " ++ errno_text ++ newline) 1)
  | Opened fp =>
      let seq := kseq_init fp in
      match read_loop fuel seq 0 with
      | None => None
      | Some (slen, _) =>
          (* printf("%lu\n", slen); ... return (0); *)
          Some (mkProcess (print_lu slen ++ newline) "" 0)
      end
  end.

(** The calls of the reader as the loop sees them: [reads seq ls r seq']
    when successive calls from [seq] return non-negative values, leaving
    the lengths [ls] in [seq->seq.l], and the next call returns the
    negative value [r]. *)
Inductive reads : kseq_t -> list Z -> Z -> kseq_t -> Prop :=
| reads_stop seq r seq' :
    kseq_read seq = (r, seq') -> (r < 0)%Z ->
    reads seq [] r seq'
| reads_record seq r seq' ls rf seqf :
    kseq_read seq = (r, seq') -> (0 <= r)%Z ->
    reads seq' ls rf seqf ->
    reads seq (seq_l seq' :: ls) rf seqf.

(** The same calls, run: the lengths left by the calls that succeed and
    the first negative return value, if it comes within [fuel] calls. *)
Fixpoint trace (fuel : nat) (seq : kseq_t) : option (list Z * Z * kseq_t) :=
  match fuel with
  | O => None
  | S fuel' =>
      let (r, seq') := kseq_read seq in
      if 0 <=? r
      then match trace fuel' seq' with
           | Some (ls, rf, seqf) => Some (seq_l seq' :: ls, rf, seqf)
           | None => None
           end
      else Some ([], r, seq')
  end%Z.

(** The accumulator after the lengths [ls], each addition wrapping. *)
Definition accumulate (slen : Z) (ls : list Z) : Z :=
  fold_left (fun a l => ulong_wrap ulong_bits (a + l)) ls slen.

End Driver.

(** The sum of the lengths [ls], in the integers. *)
Definition total (ls : list Z) : Z := fold_right Z.add 0%Z ls.

(** *** A reader that replays a script

    The simplest reader: each call pops the next scripted return value and
    sequence length; past the end of the script it reports end of stream. *)
Record replay := mkReplay {
  replay_l : Z;
  script : list (Z * Z)
}.

Definition replay_read (s : replay) : Z * replay :=
  match script s with
  | [] => ((-1)%Z, s)
  | (r, l) :: rest => (r, mkReplay l rest)
  end.

(** *** The record reader of the specification as a kseq reader *)

(** Modelled from the spec: the kseq object over the streaming record
    reader: the reader and the record of the last successful call. *)
Record kseq := mkKseq {
  rd : Reader.reader;
  seq : Reader.record
}.

(** Modelled from the spec: the [int] that [kseq_read] returns for an
    outcome of [next_record]: the length of the sequence for a record, -1
    at the end of the stream, -2 for a format error. *)
Definition kseq_code (res : Reader.result) : Z :=
  match res with
  | Reader.Rec r => Z.of_nat (length (Reader.sequence r))
  | Reader.EndOfStream => (-1)%Z
  | Reader.FormatError _ _ => (-2)%Z
  end.

(** Modelled from the spec: [kseq_read] over [next_record]; a record is
    kept in the object, where the caller reads its fields. *)
Definition kseq_read (k : kseq) : Z * kseq :=
  match Reader.next_record (rd k) with
  | (res, rd') =>
      (kseq_code res,
       mkKseq rd' match res with Reader.Rec r => r | _ => seq k end)
  end.

(** Modelled from the spec: the field [seq->seq.l], the length of the
    sequence of the record kept in the object. *)
Definition seq_l (k : kseq) : Z := Z.of_nat (length (Reader.sequence (seq k))).

(** Modelled from the spec: a fresh kseq object over a byte-source. *)
Definition kseq_init (src : bytes) : kseq :=
  mkKseq (Reader.open src) (Reader.mkRecord [] [] [] []).

(** A file system: for every path, the content of the file that [fopen]
    opens, or the text of the [errno] that [fopen] fails with. *)
Definition filesystem := string -> fopen_result bytes.

(** [fopen(path, "r")] in a file system. *)
Definition fopen (fs : filesystem) (path : string) : fopen_result bytes :=
  fs path.

(** The benchmark over the record reader. *)
Definition bench (ulong_bits : N) (fs : filesystem) (fuel : nat) (path : string)
  : option process :=
  main ulong_bits (fopen fs) kseq_init kseq_read seq_l fuel path.

(** Half a gibi: the number of bases of a large record. *)
Definition half_gibi : nat := N.to_nat (2 ^ 29).

(** The sum of the sequence lengths of the records [rs]. *)
Definition total_len (rs : list Reader.record) : Z :=
  total (map (fun r => Z.of_nat (length (Reader.sequence r))) rs).

End Bench.

(** ** Byte-sources that deliver their bytes in chunks *)

Module Source.

Import Bench.

(** Modelled from the spec: the byte-source contract of section 6, which
    the reader (not among the sources) reads through: every fill returns
    some more bytes, and a fill that returns no byte is the permanent end
    of the stream.  A byte-source is the chunks that its successive fills
    return. *)
Definition source := list bytes.

(** Modelled from the spec: the bytes that a byte-source yields, up to the
    first fill that returns none. *)
Fixpoint delivered (chunks : source) : bytes :=
  match chunks with
  | [] => []
  | [] :: _ => []
  | c :: cs => c ++ delivered cs
  end.

(** Modelled from the spec: the lines that are complete in a buffer, and
    the bytes after the last newline, which stay in the buffer. *)
Fixpoint complete_lines (s : bytes) : list line * bytes :=
  match s with
  | [] => ([], [])
  | c :: s' =>
      let (ls, rest) := complete_lines s' in
      if is_newline c then (Line [] true :: ls, rest)
      else match ls with
           | [] => ([], c :: rest)
           | l :: ls' => (Line (c :: text l) (terminated l) :: ls', rest)
           end
  end.

(** Modelled from the spec: buffered line reading (sections 2 and 3).  A
    fill appends its bytes to the buffer [buf]; the complete lines go to
    the reader and the beginning of the next line stays in the buffer; at
    the end of the stream what is left in the buffer is the last line. *)
Fixpoint pull_lines (buf : bytes) (chunks : source) : list line :=
  match chunks with
  | [] => split_lines buf
  | [] :: _ => split_lines buf
  | c :: cs =>
      let (ls, rest) := complete_lines (buf ++ c) in
      ls ++ pull_lines rest cs
  end.

(** Modelled from the spec: construction of the reader over a byte-source,
    with an empty buffer. *)
Definition open_source (chunks : source) : Reader.reader :=
  Reader.mkReader 0 (pull_lines [] chunks).

(** Modelled from the spec: a fresh kseq object over a byte-source. *)
Definition kseq_init_source (chunks : source) : kseq :=
  mkKseq (open_source chunks) (Reader.mkRecord [] [] [] []).

(** The benchmark on a file system whose streams are byte-sources. *)
Definition bench_source (ulong_bits : N) (fs : string -> fopen_result source)
  (fuel : nat) (path : string) : option process :=
  main ulong_bits fs kseq_init_source kseq_read seq_l fuel path.

(** The same bytes, one fill for every [n + 1] of them. *)
Fixpoint chunked (n : nat) (fuel : nat) (s : bytes) : source :=
  match fuel with
  | O => [s]
  | S fuel' =>
      match s with
      | [] => []
      | _ => firstn (S n) s :: chunked n fuel' (skipn (S n) s)
      end
  end.

End Source.

(** ** The calls of the driver

    [main] again, as the sequence of the library calls it makes, in program
    order: the calls that the process record of [Bench.main] leaves out
    ([fileno], [kseq_init], [kseq_destroy], [fclose]) are kept. *)

Module Calls.

Import Bench.

Inductive call :=
| Fopen (path : string) (opened : bool)
| Perror (s errno_text : string)
| Exit (status : Z)
| Fileno
| KseqInit
| KseqRead (ret : Z)
| Printf (v : Z)
| KseqDestroy
| Fclose
| Return (status : Z).

Section Driver.

Variable ulong_bits : N.
Context {FILE kseq_t : Type}.
Variable fopen : string -> fopen_result FILE.
Variable kseq_init : FILE -> kseq_t.
Variable kseq_read : kseq_t -> Z * kseq_t.
Variable seq_l : kseq_t -> Z.

(** The calls of [while (kseq_read(seq) >= 0) { slen += seq->seq.l; }],
    and the accumulator when the loop is left. *)
Fixpoint read_calls (fuel : nat) (seq : kseq_t) (slen : Z) : option (list call * Z) :=
  match fuel with
  | O => None
  | S fuel' =>
      let (r, seq') := kseq_read seq in
      if 0 <=? r
      then match read_calls fuel' seq' (ulong_wrap ulong_bits (slen + seq_l seq')) with
           | Some (cs, v) => Some (KseqRead r :: cs, v)
           | None => None
           end
      else Some ([KseqRead r], slen)
  end%Z.

(** The calls of [main], given [argv[1]]. *)
Definition main_calls (fuel : nat) (path : string) : option (list call) :=
  match fopen path with
  | Null errno_text =>
      Some [Fopen path false; Perror "fopen" errno_text; Exit 1]
  | Opened fp =>
      match read_calls fuel (kseq_init fp) 0 with
      | None => None
      | Some (cs, slen) =>
          Some (Fopen path true :: Fileno :: KseqInit
                  :: cs ++ [Printf slen; KseqDestroy; Fclose; Return 0])
      end
  end.

End Driver.

(** What a sequence of calls writes, and the status the process ends with:
    [printf("%lu\n", v)] writes to standard output, [perror(s)] writes [s],
    a colon and the text of [errno] to standard error, [exit] and the
    return from [main] end the process. *)
Fixpoint output (cs : list call) (p : process) : process :=
  match cs with
  | [] => p
  | Printf v :: cs' =>
      output cs' (mkProcess (stdout p ++ print_lu v ++ newline) (stderr p) (exit_status p))
  | Perror s e :: cs' =>
      output cs' (mkProcess (stdout p) (stderr p ++ s ++ ": " ++ e ++ newline)
                            (exit_status p))
  | Exit st :: _ => mkProcess (stdout p) (stderr p) st
  | Return st :: _ => mkProcess (stdout p) (stderr p) st
  | _ :: cs' => output cs' p
  end.

(** The resources of the process: whether the stream is open, whether a
    kseq object is live, whether that object has returned a negative value,
    and whether the process has ended. *)
Record resources := mkResources {
  file_open : bool;
  reader_live : bool;
  drained : bool;
  ended : bool
}.

Definition fresh : resources := mkResources false false false false.

(** The discipline of the resources: nothing is called after the process
    has ended; a stream is opened only when none is open, and [fileno],
    [kseq_init] and [fclose] need an open stream; [kseq_read] and
    [kseq_destroy] need a live kseq object, and [kseq_read] one that has not
    returned a negative value yet; the stream is closed only after the
    object that reads from it is destroyed; [main] returns only with the
    stream closed and the object destroyed. *)
Definition monitor (st : resources) (c : call) : option resources :=
  if ended st then None
  else
    match c with
    | Fopen _ true =>
        if file_open st then None
        else Some (mkResources true (reader_live st) (drained st) false)
    | Fopen _ false => Some st
    | Perror _ _ => Some st
    | Printf _ => Some st
    | Fileno => if file_open st then Some st else None
    | KseqInit =>
        if file_open st && negb (reader_live st)
        then Some (mkResources true true false false)
        else None
    | KseqRead r =>
        if reader_live st && negb (drained st)
        then Some (mkResources (file_open st) true (r <? 0)%Z false)
        else None
    | KseqDestroy =>
        if reader_live st
        then Some (mkResources (file_open st) false (drained st) false)
        else None
    | Fclose =>
        if file_open st && negb (reader_live st)
        then Some (mkResources false false (drained st) false)
        else None
    | Exit _ => Some (mkResources (file_open st) (reader_live st) (drained st) true)
    | Return _ =>
        if file_open st || reader_live st then None
        else Some (mkResources false false (drained st) true)
    end.

Fixpoint run_monitor (st : resources) (cs : list call) : option resources :=
  match cs with
  | [] => Some st
  | c :: cs' =>
      match monitor st c with
      | Some st' => run_monitor st' cs'
      | None => None
      end
  end.

(** Reading back a line of digits, as [strtoul] would. *)
Definition scan_lu (s : string) : option Z :=
  option_map (fun d => Z.of_N (N.of_uint d)) (NilZero.uint_of_string s).

(** A length that counts: records without bases add nothing. *)
Definition has_bases (l : Z) : bool := negb (l =? 0)%Z.

(** A reader that takes the sign of the scripted return values only. *)
Definition replay_sign (s : replay) : Z * replay :=
  let (r, s') := replay_read s in
  ((if 0 <=? r then 0 else -1)%Z, s').

(** A reader over a source that never ends: every call finds a record of
    [l] bases. *)
Definition endless_read (l : Z) (s : Z) : Z * Z := (l, l).

End Calls.

(** * Properties *)

Import Reader.

(** ** Lines *)

Lemma split_lines_length (s : bytes) : length (split_lines s) <= length s.
Proof.
  induction s as [|c s IH]; simpl; [lia|].
  destruct (is_newline c); simpl; [lia|].
  destruct (split_lines s); simpl in *; lia.
Qed.

Lemma split_lines_line (l s : bytes) :
  no_newline l = true ->
  split_lines (l ++ LF :: s) = Line l true :: split_lines s.
Proof.
  induction l as [|c l IH]; simpl; intros H.
  - reflexivity.
  - apply andb_prop in H. destruct H as [Hc Hl].
    apply negb_true_iff in Hc. rewrite Hc, (IH Hl). reflexivity.
Qed.

Lemma split_lines_lines_text (ls : list bytes) (s : bytes) :
  forallb no_newline ls = true ->
  split_lines (lines_text ls ++ s)
  = map (fun l => Line l true) ls ++ split_lines s.
Proof.
  induction ls as [|l ls IH]; simpl; intros H; [reflexivity|].
  apply andb_prop in H. destruct H as [Hl Hls].
  rewrite <- !app_assoc. simpl.
  rewrite (split_lines_line _ _ Hl), (IH Hls). reflexivity.
Qed.

(** The first line of a source that begins with a byte other than the
    newline begins with that byte. *)
Lemma split_lines_head (c : ascii) (s : bytes) :
  is_newline c = false ->
  exists l ls, split_lines (c :: s) = l :: ls /\ begins_with (Ascii.eqb c) (text l) = true
               /\ exists t, text l = c :: t.
Proof.
  intros H. simpl. rewrite H.
  destruct (split_lines s) as [|l ls].
  - exists (Line [c] false), []. simpl. rewrite Ascii.eqb_refl. eauto.
  - exists (Line (c :: text l) (terminated l)), ls. simpl. rewrite Ascii.eqb_refl. eauto.
Qed.

Lemma payload_split_lines (s : bytes) :
  concat (map text (split_lines s)) = payload s.
Proof.
  induction s as [|c s IH]; simpl; [reflexivity|].
  destruct (is_newline c); simpl; [exact IH|].
  rewrite <- IH. destruct (split_lines s); reflexivity.
Qed.

(** ** The record reader *)

Lemma record_eta (r : record) :
  mkRecord (name r) (comment r) (sequence r) (quality r) = r.
Proof. destruct r; reflexivity. Qed.

Lemma in_quality_eq (r : record) (n : nat) (ls : list line) :
  in_quality r n ls =
  if length (sequence r) - length (quality r) =? 0 then (Rec r, mkReader n ls)
  else match ls with
       | [] => (FormatError n TruncatedRecord, mkReader n [])
       | l :: ls' =>
           if length (text l) <=? length (sequence r) - length (quality r)
           then in_quality (add_quality r (text l)) (S n) ls'
           else (Rec (add_quality r (firstn (length (sequence r) - length (quality r)) (text l))),
                 mkReader n (Line (skipn (length (sequence r) - length (quality r)) (text l))
                                  (terminated l) :: ls'))
       end.
Proof. destruct ls; reflexivity. Qed.

(** A record that leaves [InQuality] has as many quality bytes as sequence
    bytes, and the fields read before are unchanged. *)
Lemma in_quality_rec (ls : list line) : forall r n r' rd',
  in_quality r n ls = (Rec r', rd') ->
  length (quality r) <= length (sequence r) ->
  length (quality r') = length (sequence r')
  /\ sequence r' = sequence r /\ name r' = name r /\ comment r' = comment r
  /\ length (pending rd') <= length ls.
Proof.
  induction ls as [|l ls IH]; intros r n r' rd' H Hle; rewrite in_quality_eq in H.
  - destruct (Nat.eqb_spec (length (sequence r) - length (quality r)) 0) as [E|E];
      [|discriminate].
    injection H as <- <-. simpl. repeat split; lia.
  - destruct (Nat.eqb_spec (length (sequence r) - length (quality r)) 0) as [E|E].
    { injection H as <- <-. simpl. repeat split; lia. }
    destruct (Nat.leb_spec (length (text l)) (length (sequence r) - length (quality r)))
      as [L|L].
    + apply IH in H; [|simpl; rewrite length_app; lia].
      simpl in H. simpl. intuition lia.
    + injection H as <- <-. simpl. rewrite length_app, length_firstn.
      repeat split; lia.
Qed.

(** End of input before the quality bytes are all there is a truncated
    record. *)
Lemma in_quality_truncated (ls : list line) : forall r n,
  length (quality r) + length (concat (map text ls)) < length (sequence r) ->
  in_quality r n ls
  = (FormatError (n + length ls) TruncatedRecord, mkReader (n + length ls) []).
Proof.
  induction ls as [|l ls IH]; intros r n H; rewrite in_quality_eq; simpl in H.
  - destruct (Nat.eqb_spec (length (sequence r) - length (quality r)) 0) as [E|E];
      [lia|]. simpl. rewrite Nat.add_0_r. reflexivity.
  - rewrite length_app in H.
    destruct (Nat.eqb_spec (length (sequence r) - length (quality r)) 0) as [E|E];
      [lia|].
    destruct (Nat.leb_spec (length (text l)) (length (sequence r) - length (quality r)))
      as [L|L]; [|lia].
    rewrite IH; [|simpl; rewrite length_app; lia].
    simpl. rewrite <- !plus_n_Sm. reflexivity.
Qed.

Lemma complete_rec (fastq at_eof : bool) (r r' : record) (rd rd' : reader) :
  complete fastq at_eof r rd = (Rec r', rd') ->
  r' = r /\ rd' = rd
  /\ (fastq = true -> length (quality r) = length (sequence r)).
Proof.
  unfold complete. destruct fastq; simpl.
  - destruct (Nat.eqb_spec (length (quality r)) (length (sequence r))); simpl;
      [|discriminate].
    intros H; injection H as <- <-. auto.
  - intros H; injection H as <- <-. repeat split. discriminate.
Qed.

(** A call that leaves [InSequence] with a record has consumed lines only,
    and a FASTQ record has then matching lengths. *)
Lemma in_sequence_rec (fastq : bool) (ls : list line) : forall r n r' rd',
  in_sequence fastq r n ls = (Rec r', rd') ->
  length (pending rd') <= length ls
  /\ (fastq = true -> length (quality r) <= length (sequence r) ->
      length (quality r') = length (sequence r')).
Proof.
  induction ls as [|l ls IH]; intros r n r' rd' H; simpl in H.
  - apply complete_rec in H. destruct H as (-> & -> & Hq). simpl. split; auto.
  - destruct (begins_with is_header_sigil (text l)).
    { apply complete_rec in H. destruct H as (-> & -> & Hq). simpl. split; auto. }
    destruct (fastq && begins_with is_separator (text l)) eqn:Esep.
    + split.
      * destruct (Nat.le_gt_cases (length (quality r)) (length (sequence r))) as [Hle|Hgt].
        -- apply in_quality_rec in H; [|exact Hle]. simpl. lia.
        -- rewrite in_quality_eq in H.
           replace (length (sequence r) - length (quality r)) with 0 in H by lia.
           simpl in H. injection H as <- <-. simpl. lia.
      * intros _ Hle. apply in_quality_rec in H; [|exact Hle]. tauto.
    + apply IH in H. destruct H as [Hp Hq]. split; [simpl; lia|].
      intros Hf Hle. apply Hq; [exact Hf|]. simpl. rewrite length_app. lia.
Qed.

(** Reading the sequence lines [ls]: their bytes are appended, and the
    reader goes on at the lines that follow. *)
Lemma in_sequence_lines (fastq : bool) (rest : list line) (ls : list bytes) :
  forall r n,
  forallb (fun l => negb (begins_with is_header_sigil l)
                    && negb (fastq && begins_with is_separator l)) ls = true ->
  in_sequence fastq r n (map (fun l => Line l true) ls ++ rest)
  = in_sequence fastq
      (mkRecord (name r) (comment r) (sequence r ++ concat ls) (quality r))
      (n + length ls) rest.
Proof.
  induction ls as [|l ls IH]; intros r n H; simpl.
  - rewrite app_nil_r, Nat.add_0_r, record_eta. reflexivity.
  - simpl in H. apply andb_prop in H. destruct H as [Hl Hls].
    apply andb_prop in Hl. destruct Hl as [Hh Hs].
    apply negb_true_iff in Hh, Hs. rewrite Hh, Hs.
    rewrite (IH _ _ Hls). simpl. rewrite <- app_assoc, <- plus_n_Sm. reflexivity.
Qed.

(** A call that returns a record has consumed at least its header line. *)
Lemma before_record_progress (ls : list line) : forall n r rd',
  before_record n ls = (Rec r, rd') ->
  length (pending rd') < length ls.
Proof.
  induction ls as [|l ls IH]; intros n r rd' H; simpl in H; [discriminate|].
  destruct (is_blank (text l)).
  - apply IH in H. simpl. lia.
  - unfold in_header in H. destruct (text l) as [|c h]; [discriminate|].
    destruct (is_header_sigil c); [|discriminate].
    destruct (terminated l); [|discriminate].
    apply in_sequence_rec in H. simpl. lia.
Qed.

Lemma next_record_progress (rd rd' : reader) (r : record) :
  next_record rd = (Rec r, rd') ->
  length (pending rd') < length (pending rd).
Proof. apply before_record_progress. Qed.

(** The calls of a reader come to an end, after at most as many records as
    there are lines. *)
Lemma yields_total (rd : reader) :
  exists rs res, yields rd rs res /\ length rs <= length (pending rd).
Proof.
  remember (length (pending rd)) as m eqn:Em.
  revert rd Em. induction m as [m IH] using lt_wf_ind. intros rd Em.
  destruct (next_record rd) as [res rd'] eqn:E.
  destruct res as [r| |off kind].
  - pose proof (next_record_progress _ _ _ E) as Hlt.
    destruct (IH (length (pending rd')) ltac:(lia) rd' eq_refl) as (rs & res & Hy & Hl).
    exists (r :: rs), res. split; [eapply yields_next; eassumption|simpl; lia].
  - exists [], EndOfStream. split; [eapply yields_last; [eassumption|reflexivity]|simpl; lia].
  - exists [], (FormatError off kind).
    split; [eapply yields_last; [eassumption|reflexivity]|simpl; lia].
Qed.

Lemma yields_functional (rd : reader) (rs1 rs2 : list record) (res1 res2 : result) :
  yields rd rs1 res1 -> yields rd rs2 res2 -> rs1 = rs2 /\ res1 = res2.
Proof.
  intros H1. revert rs2 res2.
  induction H1 as [rd res rd' E Hn|rd r rd' rs res E Hy IH]; intros rs2 res2 H2;
    inversion H2 as [? ? ? E2 Hn2|? ? ? ? ? E2 Hy2]; subst; rewrite E in E2.
  - injection E2 as <- <-. auto.
  - injection E2 as -> _. discriminate.
  - injection E2 as <- _. discriminate.
  - injection E2 as <- <-. destruct (IH _ _ Hy2) as [-> ->]. auto.
Qed.

Lemma forallb_weaken {A : Type} (p q : A -> bool) (l : list A) :
  (forall x, p x = true -> q x = true) ->
  forallb p l = true -> forallb q l = true.
Proof.
  intros Hpq. induction l as [|x l IH]; simpl; [reflexivity|].
  intros H. apply andb_prop in H. destruct H as [Hx Hl].
  rewrite (Hpq x Hx), (IH Hl). reflexivity.
Qed.

(** What the layouts of the sequence block give to the reader. *)
Lemma seq_lines_no_newline (ls : list bytes) :
  forallb seq_line ls = true -> forallb no_newline ls = true.
Proof.
  apply forallb_weaken. unfold seq_line. intros x Hx.
  apply andb_prop in Hx. tauto.
Qed.

Lemma seq_lines_read (ls : list bytes) :
  forallb seq_line ls = true ->
  forallb (fun l => negb (begins_with is_header_sigil l)
                    && negb (false && begins_with is_separator l)) ls = true.
Proof.
  apply forallb_weaken. unfold seq_line. intros x Hx.
  apply andb_prop in Hx. destruct Hx as [_ ->]. reflexivity.
Qed.

Lemma fastq_seq_lines_seq (ls : list bytes) :
  forallb fastq_seq_line ls = true -> forallb seq_line ls = true.
Proof.
  apply forallb_weaken. unfold fastq_seq_line. intros x Hx.
  apply andb_prop in Hx. tauto.
Qed.

Lemma fastq_seq_lines_read (ls : list bytes) :
  forallb fastq_seq_line ls = true ->
  forallb (fun l => negb (begins_with is_header_sigil l)
                    && negb (true && begins_with is_separator l)) ls = true.
Proof.
  apply forallb_weaken. unfold fastq_seq_line, seq_line. intros x Hx.
  apply andb_prop in Hx. destruct Hx as [Hx Hs].
  apply andb_prop in Hx. destruct Hx as [_ Hh]. rewrite Hh. exact Hs.
Qed.

Lemma header_sigil_cases (c : ascii) :
  is_header_sigil c = true -> c = ">"%char \/ c = "@"%char.
Proof.
  unfold is_header_sigil, is_fasta_sigil, is_fastq_sigil. intros H.
  apply orb_prop in H. destruct H as [H|H]; apply Ascii.eqb_eq in H; auto.
Qed.

Lemma header_sigil_not_newline (c : ascii) :
  is_header_sigil c = true -> is_newline c = false.
Proof. intros H. destruct (header_sigil_cases c H) as [-> | ->]; reflexivity. Qed.

(** The lines that [BeforeRecord] skips are the ones [next_line] skips. *)
Lemma before_record_next_line (ls : list line) : forall n,
  match next_line ls with
  | None => fst (before_record n ls) = EndOfStream
  | Some l => exists k ls', before_record n ls = in_header l (n + k) ls'
  end.
Proof.
  induction ls as [|l ls IH]; intros n; simpl; [reflexivity|].
  destruct (is_blank (text l)).
  - specialize (IH (S n)). destruct (next_line ls); [|exact IH].
    destruct IH as (k & ls' & E). exists (S k), ls'. rewrite E, <- plus_n_Sm. reflexivity.
  - exists 0, ls. rewrite Nat.add_0_r. reflexivity.
Qed.

(** The first call on a source that is one FASTA record. *)
Lemma fasta_record_parses (h : bytes) (ls : list bytes) :
  no_newline h = true -> forallb seq_line ls = true ->
  next_record (open (fasta_source h ls))
  = (Rec (mkRecord (token h) (skip_spaces (after_token h)) (concat ls) []),
     mkReader (S (length ls)) []).
Proof.
  intros Hh Hls. unfold next_record, open, fasta_source. cbn [lineno pending].
  rewrite split_lines_line by exact Hh.
  rewrite <- (app_nil_r (lines_text ls)), split_lines_lines_text
    by exact (seq_lines_no_newline ls Hls).
  simpl. unfold in_header. simpl.
  rewrite in_sequence_lines by exact (seq_lines_read ls Hls). reflexivity.
Qed.

(** The first call on a source that is one FASTQ record whose quality
    block has enough bytes. *)
Lemma in_quality_complete (ls : list line) : forall r n,
  length (quality r) <= length (sequence r) ->
  length (sequence r) <= length (quality r) + length (concat (map text ls)) ->
  exists rd',
    in_quality r n ls
    = (Rec (add_quality r (firstn (length (sequence r) - length (quality r))
                                  (concat (map text ls)))), rd').
Proof.
  induction ls as [|l ls IH]; intros r n Hle Hge; rewrite in_quality_eq; simpl in Hge.
  - replace (length (sequence r) - length (quality r)) with 0 by lia. simpl.
    unfold add_quality. rewrite app_nil_r, record_eta. eauto.
  - rewrite length_app in Hge.
    destruct (Nat.eqb_spec (length (sequence r) - length (quality r)) 0) as [E|E].
    { rewrite E. simpl. unfold add_quality. rewrite app_nil_r, record_eta. eauto. }
    simpl concat. rewrite firstn_app.
    destruct (Nat.leb_spec (length (text l)) (length (sequence r) - length (quality r)))
      as [L|L].
    + destruct (IH (add_quality r (text l)) (S n)) as [rd' E'].
      * simpl. rewrite length_app. lia.
      * simpl. rewrite length_app. lia.
      * rewrite E'. exists rd'. f_equal. unfold add_quality. simpl.
        rewrite length_app, (firstn_all2 (text l)) by exact L.
        rewrite <- app_assoc, Nat.sub_add_distr. reflexivity.
    + eexists. f_equal. unfold add_quality.
      replace (length (sequence r) - length (quality r) - length (text l)) with 0 by lia.
      simpl. rewrite app_nil_r. reflexivity.
Qed.

Lemma fastq_source_lines (h : bytes) (ls : list bytes) (sep q : bytes) :
  no_newline h = true -> forallb fastq_seq_line ls = true -> no_newline sep = true ->
  next_record (open (fastq_source h ls sep q))
  = in_quality (mkRecord (token h) (skip_spaces (after_token h)) (concat ls) [])
               (S (S (length ls))) (split_lines q).
Proof.
  intros Hh Hls Hsep. unfold next_record, open, fastq_source. cbn [lineno pending].
  rewrite split_lines_line by exact Hh.
  rewrite split_lines_lines_text
    by exact (seq_lines_no_newline ls (fastq_seq_lines_seq ls Hls)).
  rewrite split_lines_line by exact Hsep.
  simpl. unfold in_header. simpl.
  rewrite in_sequence_lines by exact (fastq_seq_lines_read ls Hls). reflexivity.
Qed.

Lemma fastq_record_parses (h : bytes) (ls : list bytes) (sep q : bytes) :
  no_newline h = true -> forallb fastq_seq_line ls = true -> no_newline sep = true ->
  length (concat ls) <= length (payload q) ->
  exists rd',
    next_record (open (fastq_source h ls sep q))
    = (Rec (mkRecord (token h) (skip_spaces (after_token h)) (concat ls)
                     (firstn (length (concat ls)) (payload q))), rd').
Proof.
  intros Hh Hls Hsep Hq. rewrite fastq_source_lines by assumption.
  destruct (in_quality_complete (split_lines q)
              (mkRecord (token h) (skip_spaces (after_token h)) (concat ls) [])
              (S (S (length ls)))) as [rd' E].
  - simpl. lia.
  - simpl. rewrite payload_split_lines. exact Hq.
  - exists rd'. rewrite E. unfold add_quality. simpl.
    rewrite payload_split_lines, Nat.sub_0_r. reflexivity.
Qed.

(** *** FASTA files *)

Lemma fasta_lines_head (recs : list (bytes * list bytes)) :
  match fasta_lines recs with
  | [] => true
  | l :: _ => begins_with is_header_sigil (text l)
  end = true.
Proof. destruct recs as [|[h ls] recs]; reflexivity. Qed.

(** A call before a FASTA record that is followed by a header, or by the
    end of the input, returns that record and stops in front of what
    follows. *)
Lemma before_record_fasta (h : bytes) (ls : list bytes) (rest : list line) (n : nat) :
  forallb seq_line ls = true ->
  match rest with
  | [] => true
  | l :: _ => begins_with is_header_sigil (text l)
  end = true ->
  before_record n (Line (">"%char :: h) true :: map (fun l => Line l true) ls ++ rest)
  = (Rec (laid_out (h, ls)), mkReader (S n + length ls) rest).
Proof.
  intros Hls Hrest. simpl. unfold in_header. simpl.
  rewrite in_sequence_lines by exact (seq_lines_read ls Hls).
  destruct rest as [|l rest]; simpl; [reflexivity|]. rewrite Hrest. reflexivity.
Qed.

Lemma split_lines_fasta_file (recs : list (bytes * list bytes)) :
  forallb well_laid recs = true ->
  split_lines (fasta_file recs) = fasta_lines recs.
Proof.
  induction recs as [|[h ls] recs IH]; intros H; [reflexivity|].
  simpl in H. apply andb_prop in H. destruct H as [Hhl Hrecs].
  unfold well_laid in Hhl. simpl in Hhl. apply andb_prop in Hhl. destruct Hhl as [Hh Hls].
  change (fasta_file ((h, ls) :: recs)) with (fasta_source h ls ++ fasta_file recs).
  change (fasta_lines ((h, ls) :: recs))
    with (Line (">"%char :: h) true
          :: map (fun l => Line l true) ls ++ fasta_lines recs).
  unfold fasta_source. rewrite <- app_assoc.
  change ((LF :: lines_text ls) ++ fasta_file recs)
    with (LF :: lines_text ls ++ fasta_file recs).
  rewrite split_lines_line by exact Hh.
  rewrite split_lines_lines_text by exact (seq_lines_no_newline ls Hls).
  rewrite (IH Hrecs). reflexivity.
Qed.

(** Round trip: the reader yields the records of a FASTA file, in order,
    and then the end of the stream. *)
Lemma yields_fasta_lines (recs : list (bytes * list bytes)) : forall n,
  forallb well_laid recs = true ->
  yields (mkReader n (fasta_lines recs)) (map laid_out recs) EndOfStream.
Proof.
  induction recs as [|[h ls] recs IH]; intros n H.
  - eapply yields_last; reflexivity.
  - simpl in H. apply andb_prop in H. destruct H as [Hhl Hrecs].
    unfold well_laid in Hhl. simpl in Hhl. apply andb_prop in Hhl. destruct Hhl as [Hh Hls].
    change (fasta_lines ((h, ls) :: recs))
      with (Line (">"%char :: h) true
            :: map (fun l => Line l true) ls ++ fasta_lines recs).
    change (map laid_out ((h, ls) :: recs)) with (laid_out (h, ls) :: map laid_out recs).
    apply (yields_next _ _ (mkReader (S n + length ls) (fasta_lines recs)));
      [|apply (IH _ Hrecs)].
    unfold next_record. cbn [lineno pending].
    apply before_record_fasta; [exact Hls|apply fasta_lines_head].
Qed.

Lemma yields_fasta_file (recs : list (bytes * list bytes)) :
  forallb well_laid recs = true ->
  yields (open (fasta_file recs)) (map laid_out recs) EndOfStream.
Proof.
  intros H. unfold open. rewrite (split_lines_fasta_file recs H).
  apply yields_fasta_lines. exact H.
Qed.

(** ** The claims on the record reader *)

(** C3.  For every FASTQ record that [next_record] returns, the quality has
    as many bytes as the sequence; when the input ends inside the quality
    block before that many quality bytes are there, [next_record] returns
    the format error [TruncatedRecord] and no record.  In particular a
    FASTQ record with 10 sequence bytes and 10 quality bytes is returned,
    and with 9 quality bytes the call returns [TruncatedRecord]. *)
Theorem fastq_quality_matches_sequence :
  (forall rd r rd',
      next_record rd = (Rec r, rd') -> next_is_fastq rd = true ->
      length (quality r) = length (sequence r))
  /\ (forall h ls sep q,
         no_newline h = true -> forallb fastq_seq_line ls = true ->
         no_newline sep = true ->
         length (payload q) < length (concat ls) ->
         exists n rd',
           next_record (open (fastq_source h ls sep q))
           = (FormatError n TruncatedRecord, rd'))
  /\ next_record (open (text_of ["@r1"; "ACGTACGTAC"; "+"; "IIIIIIIIII"]%string))
     = (Rec (mkRecord (bytes_of "r1") [] (bytes_of "ACGTACGTAC") (bytes_of "IIIIIIIIII")),
        mkReader 4 [])
  /\ next_record (open (text_of ["@r1"; "ACGTACGTAC"; "+"; "IIIIIIIII"]%string))
     = (FormatError 4 TruncatedRecord, mkReader 4 []).
Proof.
  split; [|split; [|split; reflexivity]].
  - intros [n ls] r rd'. unfold next_record, next_is_fastq. cbn [lineno pending].
    revert n. induction ls as [|l ls IH]; intros n H Hq; simpl in H, Hq; [discriminate|].
    destruct (is_blank (text l)); [exact (IH _ H Hq)|].
    unfold in_header in H. destruct (text l) as [|c h]; [discriminate|].
    simpl in Hq. rewrite Hq in H.
    destruct (is_header_sigil c); [|discriminate].
    destruct (terminated l); [|discriminate].
    apply in_sequence_rec in H. destruct H as [_ H]. apply H; [reflexivity|simpl; lia].
  - intros h ls sep q Hh Hls Hsep Hq.
    rewrite fastq_source_lines by assumption.
    rewrite in_quality_truncated; [eauto|].
    simpl. rewrite payload_split_lines. exact Hq.
Qed.

Lemma fastq_quality_matches_sequence_witness :
  let src := text_of ["@r1"; "ACGTACGTAC"; "+"; "IIIIIIIIII"]%string in
  let r := mkRecord (bytes_of "r1") [] (bytes_of "ACGTACGTAC") (bytes_of "IIIIIIIIII") in
  next_record (open src) = (Rec r, mkReader 4 [])
  /\ next_is_fastq (open src) = true
  /\ length (quality r) = length (sequence r).
Proof.
  split; [reflexivity|split; [reflexivity|]].
  apply (proj1 fastq_quality_matches_sequence
           (open (text_of ["@r1"; "ACGTACGTAC"; "+"; "IIIIIIIIII"]%string)) _ (mkReader 4 []));
    reflexivity.
Defined.

(** C4.  When the reader is before a record and the next line that is not
    blank does not begin with [>] or [@], [next_record] returns a format
    error; in particular, on an input whose first line is "notaheader" the
    first call returns a format error, and no record. *)
Theorem missing_sigil_format_error :
  (forall rd l,
      next_line (pending rd) = Some l ->
      begins_with is_header_sigil (text l) = false ->
      exists n rd', next_record rd = (FormatError n MissingHeaderSigil, rd'))
  /\ (forall s,
         next_record (open (bytes_of "notaheader" ++ LF :: s))
         = (FormatError 0 MissingHeaderSigil,
            mkReader 0 (Line (bytes_of "notaheader") true :: split_lines s))).
Proof.
  split.
  - intros [n ls] l Hl Hb. unfold next_record. cbn [lineno pending] in *.
    pose proof (before_record_next_line ls n) as H. rewrite Hl in H.
    destruct H as (k & ls' & ->). unfold in_header.
    destruct (text l) as [|c h]; [eauto|]. simpl in Hb. rewrite Hb. eauto.
  - intros s. unfold next_record, open. cbn [lineno pending].
    rewrite split_lines_line by reflexivity. reflexivity.
Qed.

Lemma missing_sigil_format_error_witness :
  let rd := open (text_of ["notaheader"]%string) in
  let l := Line (bytes_of "notaheader") true in
  next_line (pending rd) = Some l
  /\ begins_with is_header_sigil (text l) = false
  /\ exists n rd', next_record rd = (FormatError n MissingHeaderSigil, rd').
Proof.
  split; [reflexivity|split; [reflexivity|]].
  apply (proj1 missing_sigil_format_error
           (open (text_of ["notaheader"]%string)) (Line (bytes_of "notaheader") true));
    reflexivity.
Defined.

(** C5.  Parsing does not depend on how the sequence is wrapped: the
    sequence of a record, FASTA or FASTQ, is the concatenation of its
    sequence lines, whatever their number and lengths, so two layouts of
    the same bytes give the same record; in particular "ACGTACGT" on 1, 2
    or 4 lines parses to the same [sequence]. *)
Theorem rewrap_invariance :
  (forall h ls1 ls2,
      no_newline h = true ->
      forallb seq_line ls1 = true -> forallb seq_line ls2 = true ->
      concat ls1 = concat ls2 ->
      exists r,
        fst (next_record (open (fasta_source h ls1))) = Rec r
        /\ fst (next_record (open (fasta_source h ls2))) = Rec r
        /\ sequence r = concat ls1)
  /\ (forall h ls1 ls2 sep q,
         no_newline h = true ->
         forallb fastq_seq_line ls1 = true -> forallb fastq_seq_line ls2 = true ->
         no_newline sep = true ->
         concat ls1 = concat ls2 ->
         length (concat ls1) <= length (payload q) ->
         exists r,
           fst (next_record (open (fastq_source h ls1 sep q))) = Rec r
           /\ fst (next_record (open (fastq_source h ls2 sep q))) = Rec r
           /\ sequence r = concat ls1)
  /\ (exists r1 r2 r4,
         fst (next_record (open (text_of [">r"; "ACGTACGT"]%string))) = Rec r1
         /\ fst (next_record (open (text_of [">r"; "ACGT"; "ACGT"]%string))) = Rec r2
         /\ fst (next_record (open (text_of [">r"; "AC"; "GT"; "AC"; "GT"]%string))) = Rec r4
         /\ sequence r1 = bytes_of "ACGTACGT"
         /\ sequence r2 = bytes_of "ACGTACGT"
         /\ sequence r4 = bytes_of "ACGTACGT").
Proof.
  split; [|split].
  - intros h ls1 ls2 Hh H1 H2 E.
    exists (mkRecord (token h) (skip_spaces (after_token h)) (concat ls1) []).
    rewrite (fasta_record_parses h ls1 Hh H1), (fasta_record_parses h ls2 Hh H2), E.
    auto.
  - intros h ls1 ls2 sep q Hh H1 H2 Hsep E Hq.
    destruct (fastq_record_parses h ls1 sep q Hh H1 Hsep Hq) as [rd1 E1].
    destruct (fastq_record_parses h ls2 sep q Hh H2 Hsep) as [rd2 E2];
      [rewrite <- E; exact Hq|].
    rewrite E1, E2, <- E. eexists. repeat split.
  - do 3 eexists. repeat split.
Qed.

Lemma rewrap_invariance_witness :
  let h := bytes_of "r" in
  let ls1 := [bytes_of "ACGTACGT"] in
  let ls2 := [bytes_of "AC"; bytes_of "GT"; bytes_of "AC"; bytes_of "GT"] in
  no_newline h = true
  /\ forallb seq_line ls1 = true /\ forallb seq_line ls2 = true
  /\ concat ls1 = concat ls2
  /\ exists r,
       fst (next_record (open (fasta_source h ls1))) = Rec r
       /\ fst (next_record (open (fasta_source h ls2))) = Rec r
       /\ sequence r = concat ls1.
Proof.
  repeat (split; [reflexivity|]).
  apply (proj1 rewrap_invariance (bytes_of "r") [bytes_of "ACGTACGT"]
           [bytes_of "AC"; bytes_of "GT"; bytes_of "AC"; bytes_of "GT"]);
    reflexivity.
Defined.

(** C6.  On an empty byte-source the first call to [next_record] returns
    [EndOfStream]: no error, no record. *)
Theorem empty_source_end_of_stream :
  next_record (open []) = (EndOfStream, open []).
Proof. reflexivity. Qed.

(** C7.  A FASTA header immediately followed by another header is a record
    with an empty sequence, and the second header is left for the next
    call: on the lines ">seq1", ">seq2", "ACGT" the first call returns the
    record named "seq1" with the empty sequence, the second the record
    named "seq2" with the sequence "ACGT". *)
Theorem header_only_record :
  (forall h c s,
      no_newline h = true -> is_header_sigil c = true ->
      next_record (open (fasta_source h [] ++ c :: s))
      = (Rec (mkRecord (token h) (skip_spaces (after_token h)) [] []),
         mkReader 1 (split_lines (c :: s))))
  /\ (let rd0 := open (text_of [">seq1"; ">seq2"; "ACGT"]%string) in
      exists rd1 rd2,
        next_record rd0 = (Rec (mkRecord (bytes_of "seq1") [] [] []), rd1)
        /\ next_record rd1
           = (Rec (mkRecord (bytes_of "seq2") [] (bytes_of "ACGT") []), rd2)).
Proof.
  split.
  - intros h c s Hh Hc. unfold next_record, open, fasta_source. cbn [lineno pending].
    simpl lines_text. rewrite <- app_assoc. simpl app.
    change (">"%char :: h ++ LF :: c :: s) with ((">"%char :: h) ++ LF :: c :: s).
    rewrite split_lines_line by exact Hh.
    destruct (split_lines_head c s (header_sigil_not_newline c Hc))
      as (l & ls & E & _ & t & Et).
    rewrite E. simpl. unfold in_header. simpl. rewrite Et. simpl. rewrite Hc.
    reflexivity.
  - do 2 eexists. split; reflexivity.
Qed.

Lemma header_only_record_witness :
  let h := bytes_of "seq1" in
  let s := bytes_of "seq2" ++ LF :: bytes_of "ACGT" ++ [LF] in
  no_newline h = true /\ is_header_sigil ">" = true
  /\ next_record (open (fasta_source h [] ++ ">"%char :: s))
     = (Rec (mkRecord (token h) (skip_spaces (after_token h)) [] []),
        mkReader 1 (split_lines (">"%char :: s))).
Proof.
  split; [reflexivity|split; [reflexivity|]].
  apply (proj1 header_only_record (bytes_of "seq1") ">"%char
           (bytes_of "seq2" ++ LF :: bytes_of "ACGT" ++ [LF])); reflexivity.
Defined.

(** ** The driver *)

Import Bench.

Lemma ulong_modulus_pos (w : N) : (0 < 2 ^ Z.of_N w)%Z.
Proof. apply Z.pow_pos_nonneg; lia. Qed.

Lemma ulong_wrap_range (w : N) (v : Z) : (0 <= ulong_wrap w v < 2 ^ Z.of_N w)%Z.
Proof. apply Z.mod_pos_bound, ulong_modulus_pos. Qed.

Section DriverFacts.

Variable ulong_bits : N.
Context {FILE kseq_t : Type}.
Variable fopen : string -> fopen_result FILE.
Variable kseq_init : FILE -> kseq_t.
Variable kseq_read : kseq_t -> Z * kseq_t.
Variable seq_l : kseq_t -> Z.

Lemma accumulate_wrap (ls : list Z) : forall a,
  accumulate ulong_bits (ulong_wrap ulong_bits a) ls
  = ulong_wrap ulong_bits (a + total ls).
Proof.
  unfold accumulate.
  induction ls as [|l ls IH]; intros a; simpl.
  - rewrite Z.add_0_r. reflexivity.
  - rewrite IH. unfold ulong_wrap.
    rewrite <- Z.add_assoc, Zplus_mod_idemp_l. reflexivity.
Qed.

Lemma accumulate_total (ls : list Z) :
  accumulate ulong_bits 0 ls = ulong_wrap ulong_bits (total ls).
Proof.
  change 0%Z with (ulong_wrap ulong_bits 0) at 1.
  rewrite accumulate_wrap. reflexivity.
Qed.

(** The loop runs through the calls that succeed and stops at the first
    negative return value, with the reader as that call left it. *)
Lemma read_loop_reads seq ls r seq' :
  reads kseq_read seq_l seq ls r seq' ->
  forall fuel slen,
    length ls < fuel ->
    read_loop ulong_bits kseq_read seq_l fuel seq slen
    = Some (accumulate ulong_bits slen ls, seq').
Proof.
  induction 1 as [seq r seq' E Hr|seq r seq' ls rf seqf E Hr Hreads IH];
    intros [|fuel] slen Hf; simpl in Hf; try lia; simpl; rewrite E.
  - destruct (Z.leb_spec 0 r); [lia|reflexivity].
  - destruct (Z.leb_spec 0 r); [|lia]. apply IH. lia.
Qed.

Lemma trace_reads fuel : forall seq ls r seq',
  trace kseq_read seq_l fuel seq = Some (ls, r, seq') ->
  reads kseq_read seq_l seq ls r seq'.
Proof.
  induction fuel as [|fuel IH]; intros seq ls r seq' H; simpl in H; [discriminate|].
  destruct (kseq_read seq) as [r0 seq0] eqn:E.
  destruct (Z.leb_spec 0 r0).
  - destruct (trace kseq_read seq_l fuel seq0) as [[[ls0 rf] seqf]|] eqn:T;
      [|discriminate].
    injection H as <- <- <-. eapply reads_record; eauto.
  - injection H as <- <- <-. apply reads_stop; assumption.
Qed.

(** The calls of a reader are determined by the reader. *)
Lemma reads_functional seq ls1 r1 s1 ls2 r2 s2 :
  reads kseq_read seq_l seq ls1 r1 s1 ->
  reads kseq_read seq_l seq ls2 r2 s2 ->
  ls1 = ls2 /\ r1 = r2 /\ s1 = s2.
Proof.
  intros H1. revert ls2 r2 s2.
  induction H1 as [seq r seq' E Hr|seq r seq' ls rf seqf E Hr Hreads IH];
    intros ls2 r2 s2 H2;
    inversion H2 as [? ? ? E2 Hr2|? ? ? ? ? ? E2 Hr2 Hreads2]; subst;
    rewrite E in E2; injection E2 as ? ?; subst; try lia.
  - auto.
  - destruct (IH _ _ _ Hreads2) as (-> & -> & ->). auto.
Qed.

Lemma main_reads path fp ls r seq' fuel :
  fopen path = Opened fp ->
  reads kseq_read seq_l (kseq_init fp) ls r seq' ->
  length ls < fuel ->
  main ulong_bits fopen kseq_init kseq_read seq_l fuel path
  = Some (mkProcess (print_lu (ulong_wrap ulong_bits (total ls)) ++ newline) "" 0).
Proof.
  intros Ho Hr Hf. unfold main. rewrite Ho.
  rewrite (read_loop_reads _ _ _ _ Hr fuel 0%Z Hf), accumulate_total. reflexivity.
Qed.

End DriverFacts.

Lemma reads_negative {kseq_t : Type} (kseq_read : kseq_t -> Z * kseq_t)
  (seq_l : kseq_t -> Z) seq ls r seq' :
  reads kseq_read seq_l seq ls r seq' -> (r < 0)%Z.
Proof. induction 1; assumption. Qed.

(** *** The record reader under the driver *)

Lemma yields_length rd rs res :
  yields rd rs res -> length rs <= length (pending rd).
Proof.
  induction 1 as [rd res rd' E Hn|rd r rd' rs res E Hy IH]; simpl; [lia|].
  apply next_record_progress in E. lia.
Qed.

(** The calls that the loop makes on the kseq object are the calls of
    [next_record]. *)
Lemma yields_reads rd rs res :
  yields rd rs res ->
  forall r0, exists k',
    reads kseq_read seq_l (mkKseq rd r0)
      (map (fun r => Z.of_nat (length (sequence r))) rs) (kseq_code res) k'.
Proof.
  induction 1 as [rd res rd' E Hn|rd r rd' rs res E Hy IH]; intros r0.
  - exists (mkKseq rd' r0). apply reads_stop.
    + unfold kseq_read. cbn [Bench.rd Bench.seq]. rewrite E.
      destruct res; [discriminate| |]; reflexivity.
    + destruct res; [discriminate| |]; simpl; lia.
  - destruct (IH r) as [k' Hk]. exists k'. simpl.
    apply (reads_record kseq_read seq_l (mkKseq rd r0)
             (Z.of_nat (length (sequence r))) (mkKseq rd' r)).
    + unfold kseq_read. cbn [Bench.rd Bench.seq]. rewrite E. reflexivity.
    + lia.
    + exact Hk.
Qed.

Lemma total_len_nonneg (rs : list record) : (0 <= total_len rs)%Z.
Proof.
  unfold total_len, total. induction rs as [|r rs IH]; simpl; lia.
Qed.

(** The benchmark prints the sum of the lengths of the records read before
    the first call that returns no record, modulo the width of
    [unsigned long]. *)
Lemma bench_yields w fs path content rs res fuel :
  fs path = Opened content ->
  yields (open content) rs res ->
  length rs < fuel ->
  bench w fs fuel path
  = Some (mkProcess (print_lu (total_len rs mod 2 ^ Z.of_N w) ++ newline) "" 0).
Proof.
  intros Hfs Hy Hf.
  destruct (yields_reads _ _ _ Hy (mkRecord [] [] [] [])) as [k' Hr].
  unfold bench. erewrite main_reads.
  - reflexivity.
  - exact Hfs.
  - exact Hr.
  - rewrite length_map. exact Hf.
Qed.

(** No byte-source has more records than bytes. *)
Lemma yields_bound content rs res :
  yields (open content) rs res -> length rs <= length content.
Proof.
  intros Hy. apply yields_length in Hy. simpl in Hy.
  pose proof (split_lines_length content). lia.
Qed.

(** On every byte-source the benchmark comes to an end. *)
Lemma bench_total w fs path content : fs path = Opened content ->
  exists out, forall fuel, length content < fuel -> bench w fs fuel path = Some out.
Proof.
  intros Hfs. destruct (yields_total (open content)) as (rs & res & Hy & _).
  eexists. intros fuel Hf. eapply bench_yields; [eassumption|eassumption|].
  apply yields_bound in Hy. lia.
Qed.

(** *** Files of equal records *)

Lemma no_newline_repeat (c : ascii) (n : nat) :
  is_newline c = false -> no_newline (repeat c n) = true.
Proof. intros H. induction n as [|n IH]; simpl; [reflexivity|]. rewrite H. exact IH. Qed.

Lemma begins_with_repeat (p : ascii -> bool) (c : ascii) (n : nat) :
  p c = false -> begins_with p (repeat c n) = false.
Proof. intros H. destruct n; simpl; [reflexivity|exact H]. Qed.

Lemma forallb_repeat {A : Type} (p : A -> bool) (x : A) (k : nat) :
  p x = true -> forallb p (repeat x k) = true.
Proof. intros H. induction k as [|k IH]; simpl; [reflexivity|]. rewrite H. exact IH. Qed.

Lemma total_repeat (v : Z) (k : nat) : total (repeat v k) = (Z.of_nat k * v)%Z.
Proof. unfold total. induction k as [|k IH]; [reflexivity|]. cbn [repeat fold_right]. lia. Qed.

Lemma uniform_well_laid (n k : nat) :
  forallb well_laid (repeat (uniform_layout n) k) = true.
Proof.
  apply forallb_repeat. unfold well_laid, uniform_layout, seq_line.
  cbn [fst snd forallb].
  rewrite no_newline_repeat, begins_with_repeat by reflexivity. reflexivity.
Qed.

Lemma uniform_yields (n k : nat) :
  yields (open (uniform_file n k)) (uniform_records n k) EndOfStream.
Proof. apply yields_fasta_file, uniform_well_laid. Qed.

Lemma uniform_total_len (n k : nat) :
  total_len (uniform_records n k) = (Z.of_nat k * Z.of_nat n)%Z.
Proof.
  unfold total_len, uniform_records. rewrite map_map, map_repeat.
  unfold laid_out, uniform_layout. cbn [sequence snd concat].
  rewrite app_nil_r, repeat_length. apply total_repeat.
Qed.

Lemma uniform_bench (n k : nat) w fuel path :
  k < fuel ->
  bench w (fun _ => Opened (uniform_file n k)) fuel path
  = Some (mkProcess (print_lu ((Z.of_nat k * Z.of_nat n) mod 2 ^ Z.of_N w) ++ newline)
            "" 0).
Proof.
  intros Hf. rewrite <- uniform_total_len.
  eapply bench_yields; [reflexivity|apply uniform_yields|].
  unfold uniform_records. rewrite length_map, repeat_length. exact Hf.
Qed.

Lemma half_gibi_Z : Z.of_nat half_gibi = 536870912%Z.
Proof. unfold half_gibi. rewrite N_nat_Z. reflexivity. Qed.

(** *** Byte-sources *)

Import Source.

(** The lines of a buffer are its complete lines, then the lines of what
    stays in the buffer with what follows. *)
Lemma split_lines_complete (s t : bytes) :
  split_lines (s ++ t)
  = fst (complete_lines s) ++ split_lines (snd (complete_lines s) ++ t).
Proof.
  induction s as [|c s IH]; simpl; [reflexivity|].
  destruct (complete_lines s) as [ls rest]. simpl in IH.
  destruct (is_newline c) eqn:Ec; simpl.
  - rewrite IH. reflexivity.
  - rewrite IH. destruct ls as [|l ls]; simpl.
    + rewrite Ec. reflexivity.
    + reflexivity.
Qed.

(** Buffered line reading does not depend on where the fills cut the
    bytes: the lines are the lines of the bytes delivered. *)
Lemma pull_lines_delivered (chunks : source) : forall buf,
  pull_lines buf chunks = split_lines (buf ++ delivered chunks).
Proof.
  induction chunks as [|c cs IH]; intros buf; simpl.
  - rewrite app_nil_r. reflexivity.
  - destruct c as [|b c]; [rewrite app_nil_r; reflexivity|].
    pose proof (split_lines_complete (buf ++ b :: c) (delivered cs)) as H.
    destruct (complete_lines (buf ++ b :: c)) as [ls rest]. simpl in H.
    rewrite IH, <- H, <- app_assoc. reflexivity.
Qed.

Lemma open_source_delivered (chunks : source) :
  open_source chunks = open (delivered chunks).
Proof. unfold open_source, open. rewrite pull_lines_delivered. reflexivity. Qed.

Lemma bench_source_yields w fs path chunks rs res fuel :
  fs path = Opened chunks ->
  yields (open (delivered chunks)) rs res ->
  length rs < fuel ->
  bench_source w fs fuel path
  = Some (mkProcess (print_lu (total_len rs mod 2 ^ Z.of_N w) ++ newline) "" 0).
Proof.
  intros Hfs Hy Hf. rewrite <- open_source_delivered in Hy.
  destruct (yields_reads _ _ _ Hy (mkRecord [] [] [] [])) as [k' Hr].
  unfold bench_source. erewrite main_reads.
  - reflexivity.
  - exact Hfs.
  - exact Hr.
  - rewrite length_map. exact Hf.
Qed.

(** ** The claims on the driver *)

(** C1, as the code has it.  For every byte-source from which the reader
    yields the records [rs] and then [EndOfStream], the driver prints the
    sum of their sequence lengths reduced modulo [2^w], [w] the width of
    [unsigned long], in decimal and followed by a newline, and exits with
    status 0; when the sum is below [2^w] this is the sum itself. *)
Theorem bench_prints_total w fs path content rs fuel :
  fs path = Opened content ->
  yields (open content) rs EndOfStream ->
  length rs < fuel ->
  bench w fs fuel path
  = Some (mkProcess (print_lu (total_len rs mod 2 ^ Z.of_N w) ++ newline) "" 0)
  /\ ((total_len rs < 2 ^ Z.of_N w)%Z ->
      bench w fs fuel path
      = Some (mkProcess (print_lu (total_len rs) ++ newline) "" 0)).
Proof.
  intros Hfs Hy Hf.
  pose proof (bench_yields w fs path content rs EndOfStream fuel Hfs Hy Hf) as H.
  split; [exact H|]. intros Hlt.
  rewrite H, Z.mod_small; [reflexivity|]. split; [apply total_len_nonneg|exact Hlt].
Qed.

(** C2, as the code has it.  When the file cannot be opened the driver
    writes [fopen: ] and the reason to standard error, nothing to standard
    output, and exits with status 1; it exits with a status other than 0
    in no other case.  When the file is opened, whatever negative value
    ends the reading, end of stream or error, the reading stops at that
    call, the driver prints the total of the records read so far, modulo
    [2^w] with [w] the width of [unsigned long], writes nothing to standard
    error and exits with status 0. *)
Theorem exit_status_follows_fopen
  (w : N) {FILE kseq_t : Type} (fopen : string -> fopen_result FILE)
  (kseq_init : FILE -> kseq_t) (kseq_read : kseq_t -> Z * kseq_t)
  (seq_l : kseq_t -> Z) (path : string) (fuel : nat) :
  (forall msg,
      fopen path = Null msg ->
      main w fopen kseq_init kseq_read seq_l fuel path
      = Some (mkProcess "" ("fopen: " ++ msg ++ newline) 1))
  /\ (forall fp ls r seq',
         fopen path = Opened fp ->
         reads kseq_read seq_l (kseq_init fp) ls r seq' ->
         length ls < fuel ->
         read_loop w kseq_read seq_l fuel (kseq_init fp) 0
         = Some ((total ls mod 2 ^ Z.of_N w)%Z, seq')
         /\ main w fopen kseq_init kseq_read seq_l fuel path
            = Some (mkProcess (print_lu (total ls mod 2 ^ Z.of_N w) ++ newline) "" 0))
  /\ (forall p,
         main w fopen kseq_init kseq_read seq_l fuel path = Some p ->
         exit_status p <> 0%Z ->
         exists msg, fopen path = Null msg).
Proof.
  split; [|split].
  - intros msg H. unfold main. rewrite H. reflexivity.
  - intros fp ls r seq' Ho Hr Hf. split.
    + rewrite (read_loop_reads w kseq_read seq_l _ _ _ _ Hr fuel 0%Z Hf), accumulate_total.
      reflexivity.
    + exact (main_reads w fopen kseq_init kseq_read seq_l _ _ _ _ _ _ Ho Hr Hf).
  - intros p H Hs. unfold main in H. destruct (fopen path) as [fp|msg]; [|eauto].
    destruct (read_loop w kseq_read seq_l fuel (kseq_init fp) 0) as [[v k]|];
      [|discriminate].
    injection H as <-. simpl in Hs. contradiction.
Qed.

(** C8.  The loop ends at the first negative return value of [kseq_read],
    whichever it is: the reader is left as that call left it, the total of
    the records read so far is printed, nothing goes to standard error and
    the status is 0; an error and the end of the stream are not told
    apart. *)
Theorem read_loop_stops_on_negative
  (w : N) {FILE kseq_t : Type} (fopen : string -> fopen_result FILE)
  (kseq_init : FILE -> kseq_t) (kseq_read : kseq_t -> Z * kseq_t)
  (seq_l : kseq_t -> Z) (path : string) (fp : FILE)
  (ls : list Z) (r : Z) (seq' : kseq_t) (fuel : nat) :
  fopen path = Opened fp ->
  reads kseq_read seq_l (kseq_init fp) ls r seq' ->
  length ls < fuel ->
  (r < 0)%Z
  /\ read_loop w kseq_read seq_l fuel (kseq_init fp) 0
     = Some (ulong_wrap w (total ls), seq')
  /\ main w fopen kseq_init kseq_read seq_l fuel path
     = Some (mkProcess (print_lu (ulong_wrap w (total ls)) ++ newline) "" 0).
Proof.
  intros Ho Hr Hf. split; [eapply reads_negative; eassumption|]. split.
  - rewrite (read_loop_reads w kseq_read seq_l _ _ _ _ Hr fuel 0%Z Hf), accumulate_total.
    reflexivity.
  - eapply main_reads; eassumption.
Qed.

(** C9.  The printed value is the sum of the sequence lengths computed in
    [unsigned long]: the sum modulo [2^w], the result of adding the lengths
    one by one with wrap-around; it lies between 0 and [2^w - 1], and the
    program prints it and ends whatever the sum. *)
Theorem printed_total_is_modular
  (w : N) {FILE kseq_t : Type} (fopen : string -> fopen_result FILE)
  (kseq_init : FILE -> kseq_t) (kseq_read : kseq_t -> Z * kseq_t)
  (seq_l : kseq_t -> Z) (path : string) (fp : FILE)
  (ls : list Z) (r : Z) (seq' : kseq_t) (fuel : nat) :
  fopen path = Opened fp ->
  reads kseq_read seq_l (kseq_init fp) ls r seq' ->
  length ls < fuel ->
  exists v,
    main w fopen kseq_init kseq_read seq_l fuel path
    = Some (mkProcess (print_lu v ++ newline) "" 0)
    /\ v = accumulate w 0 ls
    /\ v = (total ls mod 2 ^ Z.of_N w)%Z
    /\ (0 <= v < 2 ^ Z.of_N w)%Z.
Proof.
  intros Ho Hr Hf. exists (ulong_wrap w (total ls)).
  split; [eapply main_reads; eassumption|].
  split; [symmetry; apply accumulate_total|].
  split; [reflexivity|apply ulong_wrap_range].
Qed.

(** C10.  Two runs over byte-sources that yield the same bytes, in
    whatever chunks each source delivers them, under whatever file names
    and with however much fuel the loops are given, read the same records,
    consume the same sequence of record lengths and print the same output:
    the output is the total of the records of the bytes, a function of the
    bytes alone. *)
Theorem bench_deterministic w fs1 fs2 path1 path2 chunks1 chunks2 fuel1 fuel2 :
  fs1 path1 = Opened chunks1 -> fs2 path2 = Opened chunks2 ->
  delivered chunks1 = delivered chunks2 ->
  length (delivered chunks1) < fuel1 -> length (delivered chunks2) < fuel2 ->
  (exists rs res,
      yields (open (delivered chunks1)) rs res
      /\ bench_source w fs1 fuel1 path1
         = Some (mkProcess (print_lu (total_len rs mod 2 ^ Z.of_N w) ++ newline) "" 0)
      /\ bench_source w fs2 fuel2 path2
         = Some (mkProcess (print_lu (total_len rs mod 2 ^ Z.of_N w) ++ newline) "" 0))
  /\ (forall ls1 r1 k1 ls2 r2 k2,
         reads kseq_read seq_l (kseq_init_source chunks1) ls1 r1 k1 ->
         reads kseq_read seq_l (kseq_init_source chunks2) ls2 r2 k2 ->
         ls1 = ls2 /\ r1 = r2)
  /\ (forall rs1 res1 rs2 res2,
         yields (open_source chunks1) rs1 res1 ->
         yields (open_source chunks2) rs2 res2 ->
         rs1 = rs2 /\ res1 = res2).
Proof.
  intros H1 H2 E Hf1 Hf2.
  assert (Eo : open_source chunks2 = open_source chunks1)
    by (rewrite !open_source_delivered, E; reflexivity).
  assert (Ek : kseq_init_source chunks2 = kseq_init_source chunks1)
    by (unfold kseq_init_source; rewrite Eo; reflexivity).
  split; [|split].
  - destruct (yields_total (open (delivered chunks1))) as (rs & res & Hy & _).
    apply yields_bound in Hy as Hb.
    exists rs, res. split; [exact Hy|]. split.
    + apply (bench_source_yields w fs1 path1 chunks1 rs res fuel1 H1 Hy). lia.
    + apply (bench_source_yields w fs2 path2 chunks2 rs res fuel2 H2).
      * rewrite <- E. exact Hy.
      * rewrite <- E in Hf2. lia.
  - intros ls1 r1 k1 ls2 r2 k2 Hr1 Hr2. rewrite Ek in Hr2.
    destruct (reads_functional _ _ _ _ _ _ _ _ _ Hr1 Hr2) as (-> & -> & _). auto.
  - intros rs1 res1 rs2 res2 Hy1 Hy2. rewrite Eo in Hy2.
    exact (yields_functional _ _ _ _ _ Hy1 Hy2).
Qed.

(** ** The claims at concrete inputs *)

(** Two FASTA records, of 0 and 4 bases, then the end of the stream. *)
Lemma bench_prints_total_witness :
  let content := text_of [">seq1"; ">seq2"; "ACGT"]%string in
  let fs := fun _ : string => Opened content in
  let rs := [mkRecord (bytes_of "seq1") [] [] [];
             mkRecord (bytes_of "seq2") [] (bytes_of "ACGT") []] in
  fs "reads.fa"%string = Opened content
  /\ yields (open content) rs EndOfStream
  /\ length rs < 20
  /\ bench 64 fs 20 "reads.fa"
     = Some (mkProcess (print_lu (total_len rs mod 2 ^ Z.of_N 64) ++ newline) "" 0)
  /\ ((total_len rs < 2 ^ Z.of_N 64)%Z ->
      bench 64 fs 20 "reads.fa"
      = Some (mkProcess (print_lu (total_len rs) ++ newline) "" 0)).
Proof.
  intros content fs rs.
  assert (Hfs : fs "reads.fa"%string = Opened content) by reflexivity.
  assert (Hy : yields (open content) rs EndOfStream).
  { eapply yields_next; [reflexivity|].
    eapply yields_next; [reflexivity|].
    eapply yields_last; reflexivity. }
  assert (Hf : length rs < 20) by (simpl; lia).
  split; [exact Hfs|]. split; [exact Hy|]. split; [exact Hf|].
  exact (bench_prints_total 64 fs "reads.fa" content rs 20 Hfs Hy Hf).
Defined.

(** On a platform whose [unsigned long] has 32 bits, a FASTA file of eight
    records of [2^29] bases each holds [2^32] bases; the reader yields the
    eight records and then the end of the stream, and the driver prints 0. *)
Lemma exact_total_not_printed :
  let content := uniform_file half_gibi 8 in
  let rs := uniform_records half_gibi 8 in
  let run := bench 32 (fun _ => Opened content) 9 "reads.fa" in
  yields (open content) rs EndOfStream
  /\ total_len rs = 4294967296%Z
  /\ run = Some (mkProcess ("0" ++ newline) "" 0)
  /\ run <> Some (mkProcess (print_lu (total_len rs) ++ newline) "" 0).
Proof.
  intros content rs run.
  assert (Htotal : total_len rs = 4294967296%Z).
  { unfold rs. rewrite uniform_total_len, half_gibi_Z. reflexivity. }
  assert (Hrun : run = Some (mkProcess ("0" ++ newline) "" 0)).
  { unfold run, content. rewrite uniform_bench by lia.
    rewrite half_gibi_Z. reflexivity. }
  split; [apply uniform_yields|]. split; [exact Htotal|]. split; [exact Hrun|].
  rewrite Hrun, Htotal. discriminate.
Qed.

(** A path that is no file, and a file with a FASTA record and then a
    FASTQ record whose quality block is cut short. *)
Lemma exit_status_follows_fopen_witness :
  let content := text_of [">a"; "ACGT"; "@b"; "ACGT"; "+"; "II"]%string in
  let fs := fun p : string =>
              if String.eqb p "bad.fa" then Opened content else Null "Not a directory" in
  let k' := snd (kseq_read (snd (kseq_read (kseq_init content)))) in
  fopen fs "x/missing.fa" = Null "Not a directory"
  /\ bench 64 fs 12 "x/missing.fa"
     = Some (mkProcess "" ("fopen: " ++ "Not a directory" ++ newline) 1)
  /\ fopen fs "bad.fa" = Opened content
  /\ reads kseq_read seq_l (kseq_init content) [4%Z] (-2) k'
  /\ 1 < 12
  /\ read_loop 64 kseq_read seq_l 12 (kseq_init content) 0
     = Some ((total [4%Z] mod 2 ^ Z.of_N 64)%Z, k')
  /\ bench 64 fs 12 "bad.fa"
     = Some (mkProcess (print_lu (total [4%Z] mod 2 ^ Z.of_N 64) ++ newline) "" 0).
Proof.
  intros content fs k'.
  assert (Hn : fopen fs "x/missing.fa" = Null "Not a directory") by reflexivity.
  assert (Ho : fopen fs "bad.fa" = Opened content) by reflexivity.
  assert (Hr : reads kseq_read seq_l (kseq_init content) [4%Z] (-2) k')
    by (apply trace_reads with (fuel := 2); reflexivity).
  assert (Hf : 1 < 12) by lia.
  split; [exact Hn|]. split.
  { exact (proj1 (exit_status_follows_fopen 64 (fopen fs) kseq_init kseq_read seq_l
                    "x/missing.fa" 12) _ Hn). }
  split; [exact Ho|]. split; [exact Hr|]. split; [exact Hf|].
  exact (proj1 (proj2 (exit_status_follows_fopen 64 (fopen fs) kseq_init kseq_read seq_l
                         "bad.fa" 12)) content [4%Z] (-2)%Z k' Ho Hr Hf).
Defined.

(** The first call on "notaheader" is a format error; the driver prints 0,
    writes nothing to standard error and exits with status 0. *)
Lemma format_error_exits_zero :
  let content := text_of ["notaheader"]%string in
  let fs := fun _ : string => Opened content in
  fst (next_record (open content)) = FormatError 0 MissingHeaderSigil
  /\ fst (kseq_read (kseq_init content)) = (-2)%Z
  /\ bench 64 fs 12 "bad.fa" = Some (mkProcess ("0" ++ newline) "" 0).
Proof. repeat split. Qed.

(** A FASTA record of 4 bases, then a FASTQ record whose quality block is
    cut short: the total of the first record is printed, status 0. *)
Lemma read_loop_stops_on_negative_witness :
  let content := text_of [">a"; "ACGT"; "@b"; "ACGT"; "+"; "II"]%string in
  let fs := fun _ : string => Opened content in
  let k' := snd (kseq_read (snd (kseq_read (kseq_init content)))) in
  fopen fs "cut.fq" = Opened content
  /\ reads kseq_read seq_l (kseq_init content) [4%Z] (-2) k'
  /\ 1 < 5
  /\ (-2 < 0)%Z
  /\ read_loop 64 kseq_read seq_l 5 (kseq_init content) 0
     = Some (ulong_wrap 64 (total [4%Z]), k')
  /\ main 64 (fopen fs) kseq_init kseq_read seq_l 5 "cut.fq"
     = Some (mkProcess (print_lu (ulong_wrap 64 (total [4%Z])) ++ newline) "" 0).
Proof.
  intros content fs k'.
  assert (Ho : fopen fs "cut.fq" = Opened content) by reflexivity.
  assert (Hr : reads kseq_read seq_l (kseq_init content) [4%Z] (-2) k')
    by (apply trace_reads with (fuel := 2); reflexivity).
  assert (Hf : 1 < 5) by lia.
  split; [exact Ho|]. split; [exact Hr|]. split; [exact Hf|].
  exact (read_loop_stops_on_negative 64 (fopen fs) kseq_init kseq_read seq_l
           "cut.fq" content [4%Z] (-2)%Z k' 5 Ho Hr Hf).
Defined.

(** With 32 bits, eight records of [2^29] bases: the printed value is 0. *)
Lemma printed_total_is_modular_witness :
  let script := repeat (2 ^ 29, 2 ^ 29)%Z 8 in
  let fopen := fun _ : string => Opened script in
  let ls := repeat (2 ^ 29)%Z 8 in
  fopen "reads.fa"%string = Opened script
  /\ reads replay_read replay_l (mkReplay 0 script) ls (-1) (mkReplay (2 ^ 29) [])
  /\ length ls < 9
  /\ exists v,
       main 32 fopen (mkReplay 0) replay_read replay_l 9 "reads.fa"
       = Some (mkProcess (print_lu v ++ newline) "" 0)
       /\ v = accumulate 32 0 ls
       /\ v = (total ls mod 2 ^ Z.of_N 32)%Z
       /\ (0 <= v < 2 ^ Z.of_N 32)%Z.
Proof.
  intros script fopen ls.
  assert (Ho : fopen "reads.fa"%string = Opened script) by reflexivity.
  assert (Hr : reads replay_read replay_l (mkReplay 0 script) ls (-1)
                 (mkReplay (2 ^ 29) []))
    by (apply trace_reads with (fuel := 9); reflexivity).
  assert (Hf : length ls < 9) by (simpl; lia).
  split; [exact Ho|]. split; [exact Hr|]. split; [exact Hf|].
  exact (printed_total_is_modular 32 fopen (mkReplay 0) replay_read replay_l
           "reads.fa" script ls (-1)%Z (mkReplay (2 ^ 29) []) 9 Ho Hr Hf).
Defined.

(** The same bytes under two names: in one piece, and in fills of four
    bytes that cut the lines anywhere. *)
Lemma bench_deterministic_witness :
  let content := text_of [">seq1"; ">seq2 x"; "ACGT"; "AC"]%string in
  let chunks1 := [content] in
  let chunks2 := chunked 3 7 content in
  let fs1 := fun p : string =>
               if String.eqb p "a.fa" then Opened chunks1 else Null "Not a directory" in
  let fs2 := fun _ : string => Opened chunks2 in
  chunks2 = [bytes_of ">seq"; ["1"; LF; ">"; "s"]%char;
             bytes_of "eq2 "; ["x"; LF; "A"; "C"]%char;
             ["G"; "T"; LF; "A"]%char; ["C"%char; LF]]
  /\ fs1 "a.fa"%string = Opened chunks1 /\ fs2 "b.fa"%string = Opened chunks2
  /\ delivered chunks1 = delivered chunks2
  /\ length (delivered chunks1) < 25 /\ length (delivered chunks2) < 40
  /\ (exists rs res,
         yields (open (delivered chunks1)) rs res
         /\ bench_source 64 fs1 25 "a.fa"
            = Some (mkProcess (print_lu (total_len rs mod 2 ^ Z.of_N 64) ++ newline) "" 0)
         /\ bench_source 64 fs2 40 "b.fa"
            = Some (mkProcess (print_lu (total_len rs mod 2 ^ Z.of_N 64) ++ newline) "" 0))
  /\ (forall ls1 r1 k1 ls2 r2 k2,
         reads kseq_read seq_l (kseq_init_source chunks1) ls1 r1 k1 ->
         reads kseq_read seq_l (kseq_init_source chunks2) ls2 r2 k2 ->
         ls1 = ls2 /\ r1 = r2)
  /\ (forall rs1 res1 rs2 res2,
         yields (open_source chunks1) rs1 res1 ->
         yields (open_source chunks2) rs2 res2 ->
         rs1 = rs2 /\ res1 = res2).
Proof.
  intros content chunks1 chunks2 fs1 fs2.
  assert (H1 : fs1 "a.fa"%string = Opened chunks1) by reflexivity.
  assert (H2 : fs2 "b.fa"%string = Opened chunks2) by reflexivity.
  assert (E : delivered chunks1 = delivered chunks2) by reflexivity.
  assert (Hf1 : length (delivered chunks1) < 25) by (vm_compute; lia).
  assert (Hf2 : length (delivered chunks2) < 40) by (vm_compute; lia).
  split; [reflexivity|].
  split; [exact H1|]. split; [exact H2|]. split; [exact E|].
  split; [exact Hf1|]. split; [exact Hf2|].
  exact (bench_deterministic 64 fs1 fs2 "a.fa" "b.fa" chunks1 chunks2 25 40
           H1 H2 E Hf1 Hf2).
Defined.

(** ** Further properties of the driver *)

Import Calls.

Section LoopFacts.

Variable ulong_bits : N.
Context {kseq_t : Type}.
Variable kseq_read : kseq_t -> Z * kseq_t.
Variable seq_l : kseq_t -> Z.

(** A loop that is left has met a negative return value, after fewer calls
    than it was given fuel for. *)
Lemma read_loop_complete fuel : forall seq slen v seq',
  read_loop ulong_bits kseq_read seq_l fuel seq slen = Some (v, seq') ->
  exists ls r,
    reads kseq_read seq_l seq ls r seq'
    /\ length ls < fuel
    /\ v = accumulate ulong_bits slen ls.
Proof.
  induction fuel as [|fuel IH]; intros seq slen v seq' H; simpl in H; [discriminate|].
  destruct (kseq_read seq) as [r0 s0] eqn:E.
  destruct (Z.leb_spec 0 r0) as [Hr|Hr].
  - apply IH in H. destruct H as (ls & r & Hreads & Hlen & Hv).
    exists (seq_l s0 :: ls), r. split; [eapply reads_record; eassumption|].
    split; [simpl; lia|exact Hv].
  - injection H as <- <-. exists [], r0.
    split; [apply reads_stop; assumption|]. split; [simpl; lia|reflexivity].
Qed.

(** The accumulator stays within the range of [unsigned long]. *)
Lemma read_loop_range fuel : forall seq slen v seq',
  read_loop ulong_bits kseq_read seq_l fuel seq slen = Some (v, seq') ->
  (0 <= slen < 2 ^ Z.of_N ulong_bits)%Z ->
  (0 <= v < 2 ^ Z.of_N ulong_bits)%Z.
Proof.
  induction fuel as [|fuel IH]; intros seq slen v seq' H Hs; simpl in H; [discriminate|].
  destruct (kseq_read seq) as [r0 s0].
  destruct (0 <=? r0)%Z.
  - eapply IH; [exact H|apply ulong_wrap_range].
  - injection H as <- _. exact Hs.
Qed.

(** While every call succeeds the loop goes on. *)
Lemma read_loop_diverges (inv : kseq_t -> Prop) :
  (forall s, inv s -> (0 <= fst (kseq_read s))%Z /\ inv (snd (kseq_read s))) ->
  forall fuel seq slen,
    inv seq -> read_loop ulong_bits kseq_read seq_l fuel seq slen = None.
Proof.
  intros Hinv. induction fuel as [|fuel IH]; intros seq slen Hseq; simpl; [reflexivity|].
  destruct (Hinv seq Hseq) as [Hr Hs].
  destruct (kseq_read seq) as [r0 s0]. simpl in Hr, Hs.
  destruct (Z.leb_spec 0 r0); [|lia]. apply IH. exact Hs.
Qed.

(** The calls of the loop: one per record, all with a non-negative return
    value, and a last one with the negative value. *)
Lemma read_calls_reads seq ls r seq' :
  reads kseq_read seq_l seq ls r seq' ->
  forall fuel slen,
    length ls < fuel ->
    exists rets,
      read_calls ulong_bits kseq_read seq_l fuel seq slen
      = Some (map KseqRead rets ++ [KseqRead r], accumulate ulong_bits slen ls)
      /\ length rets = length ls
      /\ Forall (fun x => 0 <= x)%Z rets.
Proof.
  induction 1 as [seq r seq' E Hr|seq r seq' ls rf seqf E Hr Hreads IH];
    intros [|fuel] slen Hf; simpl in Hf; try lia; simpl; rewrite E.
  - destruct (Z.leb_spec 0 r); [lia|]. exists []. auto.
  - destruct (Z.leb_spec 0 r); [|lia].
    destruct (IH fuel (ulong_wrap ulong_bits (slen + seq_l seq')) ltac:(lia))
      as (rets & -> & Hlen & Hall).
    exists (r :: rets). simpl. auto.
Qed.

(** The loop of calls is the loop of [main]. *)
Lemma read_calls_shape fuel : forall seq slen cs v,
  read_calls ulong_bits kseq_read seq_l fuel seq slen = Some (cs, v) ->
  exists rets r seq',
    cs = map KseqRead rets ++ [KseqRead r]
    /\ Forall (fun x => 0 <= x)%Z rets /\ (r < 0)%Z
    /\ read_loop ulong_bits kseq_read seq_l fuel seq slen = Some (v, seq').
Proof.
  induction fuel as [|fuel IH]; intros seq slen cs v H; simpl in H; [discriminate|].
  simpl. destruct (kseq_read seq) as [r0 s0].
  destruct (Z.leb_spec 0 r0) as [Hr|Hr].
  - destruct (read_calls ulong_bits kseq_read seq_l fuel s0
                (ulong_wrap ulong_bits (slen + seq_l s0))) as [[cs0 v0]|] eqn:E;
      [|discriminate].
    injection H as <- <-. destruct (IH _ _ _ _ E) as (rets & r & seq' & -> & Hall & Hneg & Hl).
    exists (r0 :: rets), r, seq'. simpl. auto.
  - injection H as <- <-. exists [], r0, s0. simpl. auto.
Qed.

End LoopFacts.

Lemma output_reads (rets : list Z) (rest : list call) : forall p,
  output (map KseqRead rets ++ rest) p = output rest p.
Proof. induction rets as [|r rets IH]; intros p; simpl; auto. Qed.

Lemma run_monitor_reads (rets : list Z) (rest : list call) (f : bool) :
  Forall (fun x => 0 <= x)%Z rets ->
  run_monitor (mkResources f true false false) (map KseqRead rets ++ rest)
  = run_monitor (mkResources f true false false) rest.
Proof.
  induction 1 as [|r rets Hr Hall IH]; simpl; [reflexivity|].
  destruct (Z.ltb_spec r 0); [lia|]. exact IH.
Qed.

Lemma print_lu_reads_back (v : Z) : (0 <= v)%Z -> scan_lu (print_lu v) = Some v.
Proof.
  intros Hv. unfold scan_lu, print_lu.
  rewrite NilZero.usu.
  - simpl. rewrite DecimalN.Unsigned.of_to, Z2N.id by exact Hv. reflexivity.
  - destruct (Z.to_N v); [discriminate|apply DecimalPos.Unsigned.to_uint_nonnil].
Qed.

Lemma total_has_bases (ls : list Z) : total (filter has_bases ls) = total ls.
Proof.
  unfold total. induction ls as [|l ls IH]; simpl; [reflexivity|].
  unfold has_bases at 1. destruct (Z.eqb_spec l 0); simpl; lia.
Qed.

Lemma total_permutation (ls1 ls2 : list Z) :
  Permutation.Permutation ls1 ls2 -> total ls1 = total ls2.
Proof. unfold total. induction 1; simpl; lia. Qed.

(** X1.  [main] returns only after the reader has returned a negative
    value: a run that ends on an opened file has read finitely many records
    and then met a negative return value, within the calls it was given,
    and its output is the total of those records. *)
Theorem main_returns_after_negative_only
  (w : N) {FILE kseq_t : Type} (fopen : string -> fopen_result FILE)
  (kseq_init : FILE -> kseq_t) (kseq_read : kseq_t -> Z * kseq_t)
  (seq_l : kseq_t -> Z) (path : string) (fp : FILE) (fuel : nat) (p : process) :
  fopen path = Opened fp ->
  main w fopen kseq_init kseq_read seq_l fuel path = Some p ->
  exists ls r seq',
    reads kseq_read seq_l (kseq_init fp) ls r seq'
    /\ (r < 0)%Z
    /\ length ls < fuel
    /\ p = mkProcess (print_lu (ulong_wrap w (total ls)) ++ newline) "" 0.
Proof.
  intros Ho H. unfold main in H. rewrite Ho in H.
  destruct (read_loop w kseq_read seq_l fuel (kseq_init fp) 0) as [[v seq']|] eqn:E;
    [|discriminate].
  injection H as <-.
  destruct (read_loop_complete w kseq_read seq_l fuel _ _ _ _ E) as (ls & r & Hr & Hl & ->).
  exists ls, r, seq'. split; [exact Hr|]. split; [eapply reads_negative; exact Hr|].
  split; [exact Hl|]. rewrite accumulate_total. reflexivity.
Qed.

(** X2.  On a reader that never returns a negative value the loop never
    ends: however many calls it is given, [main] does not return. *)
Theorem main_hangs_on_endless_reader
  (w : N) {FILE kseq_t : Type} (fopen : string -> fopen_result FILE)
  (kseq_init : FILE -> kseq_t) (kseq_read : kseq_t -> Z * kseq_t)
  (seq_l : kseq_t -> Z) (inv : kseq_t -> Prop) (path : string) (fp : FILE) :
  fopen path = Opened fp ->
  inv (kseq_init fp) ->
  (forall s, inv s -> (0 <= fst (kseq_read s))%Z /\ inv (snd (kseq_read s))) ->
  forall fuel, main w fopen kseq_init kseq_read seq_l fuel path = None.
Proof.
  intros Ho Hi Hinv fuel. unfold main. rewrite Ho.
  rewrite (read_loop_diverges w kseq_read seq_l inv Hinv fuel _ 0%Z Hi). reflexivity.
Qed.

(** X3.  A run of [main] ends in one of two ways: the file was opened, the
    status is 0, nothing is on standard error and standard output holds one
    line, a value in the range of [unsigned long]; or the file was not
    opened, the status is 1, nothing is on standard output and standard
    error holds the [fopen] message. *)
Theorem main_outcomes
  (w : N) {FILE kseq_t : Type} (fopen : string -> fopen_result FILE)
  (kseq_init : FILE -> kseq_t) (kseq_read : kseq_t -> Z * kseq_t)
  (seq_l : kseq_t -> Z) (path : string) (fuel : nat) (p : process) :
  main w fopen kseq_init kseq_read seq_l fuel path = Some p ->
  (exists fp v,
      fopen path = Opened fp
      /\ (0 <= v < 2 ^ Z.of_N w)%Z
      /\ p = mkProcess (print_lu v ++ newline) "" 0)
  \/ (exists msg,
         fopen path = Null msg
         /\ p = mkProcess "" ("fopen: " ++ msg ++ newline) 1).
Proof.
  unfold main. destruct (fopen path) as [fp|msg] eqn:Ho.
  - destruct (read_loop w kseq_read seq_l fuel (kseq_init fp) 0) as [[v seq']|] eqn:E;
      [|discriminate].
    intros H; injection H as <-. left. exists fp, v. split; [reflexivity|].
    split; [|reflexivity].
    eapply read_loop_range; [exact E|]. pose proof (ulong_modulus_pos w). lia.
  - intros H; injection H as <-. right. exists msg. auto.
Qed.

(** X4.  Of the value that [kseq_read] returns, [main] uses the sign only:
    two readers that leave the same object behind and agree on whether the
    call succeeded give the same run, whatever the values returned. *)
Theorem main_uses_sign_only
  (w : N) {FILE kseq_t : Type} (fopen : string -> fopen_result FILE)
  (kseq_init : FILE -> kseq_t) (kseq_read1 kseq_read2 : kseq_t -> Z * kseq_t)
  (seq_l : kseq_t -> Z) :
  (forall s, snd (kseq_read1 s) = snd (kseq_read2 s)
             /\ (0 <=? fst (kseq_read1 s))%Z = (0 <=? fst (kseq_read2 s))%Z) ->
  forall fuel path,
    main w fopen kseq_init kseq_read1 seq_l fuel path
    = main w fopen kseq_init kseq_read2 seq_l fuel path.
Proof.
  intros Hagree fuel path. unfold main. destruct (fopen path) as [fp|msg]; [|reflexivity].
  assert (Hloop : forall seq slen,
             option_map fst (read_loop w kseq_read1 seq_l fuel seq slen)
             = option_map fst (read_loop w kseq_read2 seq_l fuel seq slen)).
  { induction fuel as [|fuel IH]; intros seq slen; simpl; [reflexivity|].
    destruct (Hagree seq) as [Hs Hr].
    destruct (kseq_read1 seq) as [r1 s1], (kseq_read2 seq) as [r2 s2].
    simpl in Hs, Hr. subst s2. rewrite Hr.
    destruct (0 <=? r2)%Z; [apply IH|reflexivity]. }
  specialize (Hloop (kseq_init fp) 0%Z).
  destruct (read_loop w kseq_read1 seq_l fuel (kseq_init fp) 0) as [[v1 k1]|],
           (read_loop w kseq_read2 seq_l fuel (kseq_init fp) 0) as [[v2 k2]|];
    simpl in Hloop; try discriminate; [|reflexivity].
  injection Hloop as ->. reflexivity.
Qed.

(** X5.  The output does not depend on the order of the records, and
    records without bases do not count: two runs whose records with bases
    have the same lengths up to order print the same. *)
Theorem output_ignores_order_and_empty_records
  (w : N) {FILE1 kseq_t1 FILE2 kseq_t2 : Type}
  (fopen1 : string -> fopen_result FILE1) (kseq_init1 : FILE1 -> kseq_t1)
  (kseq_read1 : kseq_t1 -> Z * kseq_t1) (seq_l1 : kseq_t1 -> Z)
  (fopen2 : string -> fopen_result FILE2) (kseq_init2 : FILE2 -> kseq_t2)
  (kseq_read2 : kseq_t2 -> Z * kseq_t2) (seq_l2 : kseq_t2 -> Z)
  path1 fp1 ls1 r1 k1 fuel1 path2 fp2 ls2 r2 k2 fuel2 :
  fopen1 path1 = Opened fp1 ->
  reads kseq_read1 seq_l1 (kseq_init1 fp1) ls1 r1 k1 ->
  length ls1 < fuel1 ->
  fopen2 path2 = Opened fp2 ->
  reads kseq_read2 seq_l2 (kseq_init2 fp2) ls2 r2 k2 ->
  length ls2 < fuel2 ->
  Permutation.Permutation (filter has_bases ls1) (filter has_bases ls2) ->
  main w fopen1 kseq_init1 kseq_read1 seq_l1 fuel1 path1
  = main w fopen2 kseq_init2 kseq_read2 seq_l2 fuel2 path2.
Proof.
  intros Ho1 Hr1 Hf1 Ho2 Hr2 Hf2 Hperm.
  rewrite (main_reads w fopen1 kseq_init1 kseq_read1 seq_l1 _ _ _ _ _ _ Ho1 Hr1 Hf1).
  rewrite (main_reads w fopen2 kseq_init2 kseq_read2 seq_l2 _ _ _ _ _ _ Ho2 Hr2 Hf2).
  rewrite <- (total_has_bases ls1), <- (total_has_bases ls2).
  rewrite (total_permutation _ _ Hperm). reflexivity.
Qed.

(** X6.  The line on standard output is the decimal numeral of the total:
    reading its digits back gives the sum of the lengths modulo [2^w]. *)
Theorem printed_total_reads_back
  (w : N) {FILE kseq_t : Type} (fopen : string -> fopen_result FILE)
  (kseq_init : FILE -> kseq_t) (kseq_read : kseq_t -> Z * kseq_t)
  (seq_l : kseq_t -> Z) (path : string) (fp : FILE)
  (ls : list Z) (r : Z) (seq' : kseq_t) (fuel : nat) :
  fopen path = Opened fp ->
  reads kseq_read seq_l (kseq_init fp) ls r seq' ->
  length ls < fuel ->
  exists digits,
    option_map stdout (main w fopen kseq_init kseq_read seq_l fuel path)
    = Some (digits ++ newline)%string
    /\ scan_lu digits = Some (total ls mod 2 ^ Z.of_N w)%Z.
Proof.
  intros Ho Hr Hf. exists (print_lu (ulong_wrap w (total ls))).
  rewrite (main_reads w fopen kseq_init kseq_read seq_l _ _ _ _ _ _ Ho Hr Hf).
  split; [reflexivity|]. apply print_lu_reads_back, ulong_wrap_range.
Qed.

(** X7.  [main] keeps the discipline of its resources: in every run that
    ends, no call comes after the end of the process, the kseq object is
    made on the open stream, it is read only while live and never again
    after a negative return value, it is destroyed before the stream is
    closed, and [main] returns with the stream closed and the object
    destroyed; what the calls write is the process of [main]. *)
Theorem main_calls_disciplined
  (w : N) {FILE kseq_t : Type} (fopen : string -> fopen_result FILE)
  (kseq_init : FILE -> kseq_t) (kseq_read : kseq_t -> Z * kseq_t)
  (seq_l : kseq_t -> Z) (path : string) (fuel : nat) (cs : list call) :
  main_calls w fopen kseq_init kseq_read seq_l fuel path = Some cs ->
  (exists st,
      run_monitor fresh cs = Some st
      /\ ended st = true /\ file_open st = false /\ reader_live st = false)
  /\ main w fopen kseq_init kseq_read seq_l fuel path
     = Some (output cs (mkProcess "" "" 0)).
Proof.
  unfold main_calls, main. destruct (fopen path) as [fp|msg].
  - destruct (read_calls w kseq_read seq_l fuel (kseq_init fp) 0) as [[cs0 v]|] eqn:E;
      [|discriminate].
    intros H; injection H as <-.
    destruct (read_calls_shape w kseq_read seq_l fuel _ _ _ _ E)
      as (rets & r & seq' & -> & Hall & Hneg & ->).
    split.
    + exists (mkResources false false true true).
      cbn [run_monitor monitor fresh ended file_open reader_live andb negb].
      rewrite <- app_assoc, (run_monitor_reads rets _ true Hall). simpl.
      destruct (Z.ltb_spec r 0); [auto|lia].
    + cbn [output]. rewrite <- app_assoc, output_reads. reflexivity.
  - intros H; injection H as <-. split; [|reflexivity].
    exists (mkResources false false false true). auto.
Qed.

(** X8.  The reader is called once for every record and once more: after
    [fopen], [fileno] and [kseq_init], the calls of a run are as many
    successful calls of [kseq_read] as there are records, the call that
    returns the negative value, one [printf] of the total, [kseq_destroy],
    [fclose] and the return with status 0. *)
Theorem main_calls_once_per_record
  (w : N) {FILE kseq_t : Type} (fopen : string -> fopen_result FILE)
  (kseq_init : FILE -> kseq_t) (kseq_read : kseq_t -> Z * kseq_t)
  (seq_l : kseq_t -> Z) (path : string) (fp : FILE)
  (ls : list Z) (r : Z) (seq' : kseq_t) (fuel : nat) :
  fopen path = Opened fp ->
  reads kseq_read seq_l (kseq_init fp) ls r seq' ->
  length ls < fuel ->
  exists rets,
    main_calls w fopen kseq_init kseq_read seq_l fuel path
    = Some ([Fopen path true; Fileno; KseqInit]
              ++ map KseqRead rets
              ++ [KseqRead r; Printf (ulong_wrap w (total ls));
                  KseqDestroy; Fclose; Return 0])
    /\ length rets = length ls
    /\ Forall (fun x => 0 <= x)%Z rets
    /\ (r < 0)%Z.
Proof.
  intros Ho Hr Hf.
  destruct (read_calls_reads w kseq_read seq_l _ _ _ _ Hr fuel 0%Z Hf)
    as (rets & E & Hlen & Hall).
  exists rets. unfold main_calls. rewrite Ho, E, accumulate_total, <- app_assoc.
  split; [reflexivity|]. split; [exact Hlen|]. split; [exact Hall|].
  eapply reads_negative; exact Hr.
Qed.

(** ** The further properties at concrete inputs *)

Lemma main_returns_after_negative_only_witness :
  let content := text_of [">seq1"; ">seq2"; "ACGT"]%string in
  let fs := fun _ : string => Opened content in
  let p := mkProcess ("4" ++ newline) "" 0 in
  fopen fs "reads.fa" = Opened content
  /\ main 64 (fopen fs) kseq_init kseq_read seq_l 5 "reads.fa" = Some p
  /\ exists ls r seq',
       reads kseq_read seq_l (kseq_init content) ls r seq'
       /\ (r < 0)%Z
       /\ length ls < 5
       /\ p = mkProcess (print_lu (ulong_wrap 64 (total ls)) ++ newline) "" 0.
Proof.
  intros content fs p.
  assert (Ho : fopen fs "reads.fa" = Opened content) by reflexivity.
  assert (Hm : main 64 (fopen fs) kseq_init kseq_read seq_l 5 "reads.fa" = Some p)
    by reflexivity.
  split; [exact Ho|]. split; [exact Hm|].
  exact (main_returns_after_negative_only 64 (fopen fs) kseq_init kseq_read seq_l
           "reads.fa" content 5 p Ho Hm).
Defined.

Lemma main_hangs_on_endless_reader_witness :
  let fopen := fun _ : string => Opened tt in
  let kseq_init := fun _ : unit => 0%Z in
  let inv := fun _ : Z => True in
  fopen "endless.fa"%string = Opened tt
  /\ inv (kseq_init tt)
  /\ (forall s, inv s ->
        (0 <= fst (endless_read 7 s))%Z /\ inv (snd (endless_read 7 s)))
  /\ forall fuel,
       main 64 fopen kseq_init (endless_read 7) (fun s => s) fuel "endless.fa" = None.
Proof.
  intros fopen kseq_init inv.
  assert (Ho : fopen "endless.fa"%string = Opened tt) by reflexivity.
  assert (Hi : inv (kseq_init tt)) by exact I.
  assert (Hinv : forall s, inv s ->
             (0 <= fst (endless_read 7 s))%Z /\ inv (snd (endless_read 7 s)))
    by (intros s _; split; [simpl; lia|exact I]).
  split; [exact Ho|]. split; [exact Hi|]. split; [exact Hinv|].
  exact (main_hangs_on_endless_reader 64 fopen kseq_init (endless_read 7) (fun s => s)
           inv "endless.fa" tt Ho Hi Hinv).
Defined.

Lemma main_outcomes_witness :
  let content := text_of ["notaheader"]%string in
  let fs := fun _ : string => Opened content in
  let p := mkProcess ("0" ++ newline) "" 0 in
  main 32 (fopen fs) kseq_init kseq_read seq_l 3 "bad.fa" = Some p
  /\ ((exists fp v,
          fopen fs "bad.fa" = Opened fp
          /\ (0 <= v < 2 ^ Z.of_N 32)%Z
          /\ p = mkProcess (print_lu v ++ newline) "" 0)
      \/ (exists msg,
             fopen fs "bad.fa" = Null msg
             /\ p = mkProcess "" ("fopen: " ++ msg ++ newline) 1)).
Proof.
  intros content fs p.
  assert (Hm : main 32 (fopen fs) kseq_init kseq_read seq_l 3 "bad.fa" = Some p)
    by reflexivity.
  split; [exact Hm|].
  exact (main_outcomes 32 (fopen fs) kseq_init kseq_read seq_l "bad.fa" 3 p Hm).
Defined.

Lemma main_uses_sign_only_witness :
  let script := [(5, 5); (3, 3); (-2, 0); (9, 9)]%Z in
  let fopen := fun _ : string => Opened script in
  (forall s, snd (replay_read s) = snd (replay_sign s)
             /\ (0 <=? fst (replay_read s))%Z = (0 <=? fst (replay_sign s))%Z)
  /\ forall fuel path,
       main 64 fopen (mkReplay 0) replay_read replay_l fuel path
       = main 64 fopen (mkReplay 0) replay_sign replay_l fuel path.
Proof.
  intros script fopen.
  assert (Hagree : forall s, snd (replay_read s) = snd (replay_sign s)
             /\ (0 <=? fst (replay_read s))%Z = (0 <=? fst (replay_sign s))%Z).
  { intros s. unfold replay_sign. destruct (replay_read s) as [r s']. simpl.
    split; [reflexivity|]. destruct (0 <=? r)%Z; reflexivity. }
  split; [exact Hagree|].
  exact (main_uses_sign_only 64 fopen (mkReplay 0) replay_read replay_sign replay_l
           Hagree).
Defined.

Lemma output_ignores_order_and_empty_records_witness :
  let script1 := [(4, 4); (0, 0); (6, 6)]%Z in
  let script2 := [(6, 6); (4, 4)]%Z in
  let fopen1 := fun _ : string => Opened script1 in
  let fopen2 := fun _ : string => Opened script2 in
  fopen1 "a.fa"%string = Opened script1
  /\ reads replay_read replay_l (mkReplay 0 script1) [4; 0; 6]%Z (-1) (mkReplay 6 [])
  /\ 3 < 4
  /\ fopen2 "b.fa"%string = Opened script2
  /\ reads replay_read replay_l (mkReplay 0 script2) [6; 4]%Z (-1) (mkReplay 4 [])
  /\ 2 < 7
  /\ Permutation.Permutation (filter has_bases [4; 0; 6]%Z) (filter has_bases [6; 4]%Z)
  /\ main 64 fopen1 (mkReplay 0) replay_read replay_l 4 "a.fa"
     = main 64 fopen2 (mkReplay 0) replay_read replay_l 7 "b.fa".
Proof.
  intros script1 script2 fopen1 fopen2.
  assert (Ho1 : fopen1 "a.fa"%string = Opened script1) by reflexivity.
  assert (Hr1 : reads replay_read replay_l (mkReplay 0 script1) [4; 0; 6]%Z (-1)
                  (mkReplay 6 []))
    by (apply trace_reads with (fuel := 4); reflexivity).
  assert (Hf1 : 3 < 4) by lia.
  assert (Ho2 : fopen2 "b.fa"%string = Opened script2) by reflexivity.
  assert (Hr2 : reads replay_read replay_l (mkReplay 0 script2) [6; 4]%Z (-1)
                  (mkReplay 4 []))
    by (apply trace_reads with (fuel := 3); reflexivity).
  assert (Hf2 : 2 < 7) by lia.
  assert (Hp : Permutation.Permutation (filter has_bases [4; 0; 6]%Z)
                 (filter has_bases [6; 4]%Z))
    by (simpl; apply Permutation.perm_swap).
  split; [exact Ho1|]. split; [exact Hr1|]. split; [exact Hf1|].
  split; [exact Ho2|]. split; [exact Hr2|]. split; [exact Hf2|]. split; [exact Hp|].
  exact (output_ignores_order_and_empty_records 64
           fopen1 (mkReplay 0) replay_read replay_l
           fopen2 (mkReplay 0) replay_read replay_l
           "a.fa" script1 [4; 0; 6]%Z (-1)%Z (mkReplay 6 []) 4
           "b.fa" script2 [6; 4]%Z (-1)%Z (mkReplay 4 []) 7
           Ho1 Hr1 Hf1 Ho2 Hr2 Hf2 Hp).
Defined.

Lemma printed_total_reads_back_witness :
  let script := repeat (2 ^ 29, 2 ^ 29)%Z 9 in
  let fopen := fun _ : string => Opened script in
  let ls := repeat (2 ^ 29)%Z 9 in
  fopen "reads.fa"%string = Opened script
  /\ reads replay_read replay_l (mkReplay 0 script) ls (-1) (mkReplay (2 ^ 29) [])
  /\ length ls < 10
  /\ exists digits,
       option_map stdout (main 32 fopen (mkReplay 0) replay_read replay_l 10 "reads.fa")
       = Some (digits ++ newline)%string
       /\ scan_lu digits = Some (total ls mod 2 ^ Z.of_N 32)%Z.
Proof.
  intros script fopen ls.
  assert (Ho : fopen "reads.fa"%string = Opened script) by reflexivity.
  assert (Hr : reads replay_read replay_l (mkReplay 0 script) ls (-1)
                 (mkReplay (2 ^ 29) []))
    by (apply trace_reads with (fuel := 10); reflexivity).
  assert (Hf : length ls < 10) by (simpl; lia).
  split; [exact Ho|]. split; [exact Hr|]. split; [exact Hf|].
  exact (printed_total_reads_back 32 fopen (mkReplay 0) replay_read replay_l
           "reads.fa" script ls (-1)%Z (mkReplay (2 ^ 29) []) 10 Ho Hr Hf).
Defined.

Lemma main_calls_disciplined_witness :
  let content := text_of [">seq1"; ">seq2"; "ACGT"]%string in
  let fs := fun _ : string => Opened content in
  let cs := [Fopen "reads.fa" true; Fileno; KseqInit;
             KseqRead 0; KseqRead 4; KseqRead (-1);
             Printf 4; KseqDestroy; Fclose; Return 0] in
  main_calls 64 (fopen fs) kseq_init kseq_read seq_l 5 "reads.fa" = Some cs
  /\ (exists st,
         run_monitor fresh cs = Some st
         /\ ended st = true /\ file_open st = false /\ reader_live st = false)
  /\ main 64 (fopen fs) kseq_init kseq_read seq_l 5 "reads.fa"
     = Some (output cs (mkProcess "" "" 0)).
Proof.
  intros content fs cs.
  assert (Hc : main_calls 64 (fopen fs) kseq_init kseq_read seq_l 5 "reads.fa" = Some cs)
    by reflexivity.
  split; [exact Hc|].
  exact (main_calls_disciplined 64 (fopen fs) kseq_init kseq_read seq_l
           "reads.fa" 5 cs Hc).
Defined.

Lemma main_calls_once_per_record_witness :
  let content := text_of [">a"; "ACGT"; "@b"; "ACGT"; "+"; "II"]%string in
  let fs := fun _ : string => Opened content in
  let k' := snd (kseq_read (snd (kseq_read (kseq_init content)))) in
  fopen fs "cut.fq" = Opened content
  /\ reads kseq_read seq_l (kseq_init content) [4%Z] (-2) k'
  /\ 1 < 5
  /\ exists rets,
       main_calls 64 (fopen fs) kseq_init kseq_read seq_l 5 "cut.fq"
       = Some ([Fopen "cut.fq" true; Fileno; KseqInit]
                 ++ map KseqRead rets
                 ++ [KseqRead (-2); Printf (ulong_wrap 64 (total [4%Z]));
                     KseqDestroy; Fclose; Return 0])
       /\ length rets = length [4%Z]
       /\ Forall (fun x => 0 <= x)%Z rets
       /\ (-2 < 0)%Z.
Proof.
  intros content fs k'.
  assert (Ho : fopen fs "cut.fq" = Opened content) by reflexivity.
  assert (Hr : reads kseq_read seq_l (kseq_init content) [4%Z] (-2) k')
    by (apply trace_reads with (fuel := 2); reflexivity).
  assert (Hf : 1 < 5) by lia.
  split; [exact Ho|]. split; [exact Hr|]. split; [exact Hf|].
  exact (main_calls_once_per_record 64 (fopen fs) kseq_init kseq_read seq_l
           "cut.fq" content [4%Z] (-2)%Z k' 5 Ho Hr Hf).
Defined.
